(** * darkalley blocks: image-carousel slide engine and video-hero embed loader

    A shallow embedding of [blocks/image-carousel/image-carousel.js] and of
    the video-hero block script, with the browser primitives they call
    ([String.prototype.*], [URL], [URLSearchParams], [encodeURIComponent],
    [classList], [IntersectionObserver]) modelled in [Module Js].

    Strings are byte strings: the UTF-8 bytes of the text.  The URLs the
    blocks handle are serialised URLs ([a.href], [iframe.src]) and those are
    ASCII; bytes above 127 come up only where an escape is decoded. *)

From Stdlib Require Import ZArith Ascii.
From Stdlib Require DecimalString DecimalZ.
From stdpp Require Import base list strings.

Local Open Scope Z_scope.
Local Open Scope nat_scope.

(** ** Browser and language primitives *)

Module Js.

(** Characters as numbers, for range tests. *)
Definition code (c : ascii) : nat := nat_of_ascii c.

Definition in_range (lo hi : ascii) (c : ascii) : bool :=
  (code lo <=? code c) && (code c <=? code hi).

Definition is_alpha (c : ascii) : bool :=
  in_range "a" "z" c || in_range "A" "Z" c.
Definition is_digit (c : ascii) : bool := in_range "0" "9" c.
Definition is_alnum (c : ascii) : bool := is_alpha c || is_digit c.

Fixpoint one_of (cs : string) (c : ascii) : bool :=
  match cs with
  | EmptyString => false
  | String a cs' => Ascii.eqb c a || one_of cs' c
  end.

Definition to_lower (c : ascii) : ascii :=
  if in_range "A" "Z" c then ascii_of_nat (code c + 32) else c.

Fixpoint lower (s : string) : string :=
  match s with
  | EmptyString => EmptyString
  | String c s' => String (to_lower c) (lower s')
  end.

Fixpoint str_forallb (p : ascii -> bool) (s : string) : bool :=
  match s with
  | EmptyString => true
  | String c s' => p c && str_forallb p s'
  end.

(** [s.startsWith(p)], returning what follows the prefix. *)
Fixpoint strip_prefix (p s : string) : option string :=
  match p with
  | EmptyString => Some s
  | String a p' =>
      match s with
      | EmptyString => None
      | String b s' => if Ascii.eqb a b then strip_prefix p' s' else None
      end
  end.

(** [s.includes(sub)] *)
Fixpoint includes (s sub : string) : bool :=
  match strip_prefix sub s with
  | Some _ => true
  | None =>
      match s with
      | EmptyString => false
      | String _ s' => includes s' sub
      end
  end.

(** First [n] characters, when there are that many. *)
Fixpoint take_exact (n : nat) (s : string) : option string :=
  match n with
  | O => Some EmptyString
  | S n' =>
      match s with
      | EmptyString => None
      | String c s' => String c <$> take_exact n' s'
      end
  end.

(** The text before the first character satisfying [stop], and the rest
    (which starts with that character, or is empty). *)
Fixpoint take_until (stop : ascii -> bool) (s : string) : string * string :=
  match s with
  | EmptyString => (EmptyString, EmptyString)
  | String c s' =>
      if stop c then (EmptyString, s)
      else let '(a, r) := take_until stop s' in (String c a, r)
  end.

Definition cons_head (c : ascii) (l : list string) : list string :=
  match l with
  | [] => [String c EmptyString]
  | w :: ws => String c w :: ws
  end.

(** [s.split(sep)] for separators of one character; [sep] tells which
    characters separate.  The result is never empty. *)
Fixpoint split (sep : ascii -> bool) (s : string) : list string :=
  match s with
  | EmptyString => [EmptyString]
  | String c s' =>
      if sep c then EmptyString :: split sep s' else cons_head c (split sep s')
  end.

Definition is_slash (c : ascii) : bool := Ascii.eqb c "/".

(** [arr.join(sep)] *)
Definition join (sep : string) (l : list string) : string := String.concat sep l.

(** *** Percent encoding *)

Definition hex_digit (n : nat) : ascii :=
  match n with
  | 0 => "0" | 1 => "1" | 2 => "2" | 3 => "3" | 4 => "4" | 5 => "5"
  | 6 => "6" | 7 => "7" | 8 => "8" | 9 => "9" | 10 => "A" | 11 => "B"
  | 12 => "C" | 13 => "D" | 14 => "E" | _ => "F"
  end%char.

Definition pct (c : ascii) : string :=
  String "%" (String (hex_digit (code c / 16)) (String (hex_digit (code c mod 16)) EmptyString)).

Fixpoint pct_encode (must : ascii -> bool) (s : string) : string :=
  match s with
  | EmptyString => EmptyString
  | String c s' =>
      if must c then pct c +:+ pct_encode must s' else String c (pct_encode must s')
  end.

(** [encodeURIComponent]: everything but [A-Za-z0-9-_.!~*'()] is escaped. *)
Definition uri_unreserved (c : ascii) : bool := is_alnum c || one_of "-_.!~*'()" c.
Definition encodeURIComponent (s : string) : string :=
  pct_encode (fun c => negb (uri_unreserved c)) s.

Definition hex_value (c : ascii) : option nat :=
  if is_digit c then Some (code c - 48)
  else if in_range "a" "f" c then Some (code c - 87)
  else if in_range "A" "F" c then Some (code c - 55)
  else None.

Definition hex_pair (h l : ascii) : option ascii :=
  match hex_value h, hex_value l with
  | Some a, Some b => Some (ascii_of_nat (16 * a + b))
  | _, _ => None
  end.

(** Percent-decoding to bytes, as the URL standard does it: a [%] that is not
    followed by two hexadecimal digits stays. *)
Fixpoint pct_decode (s : string) : string :=
  match s with
  | EmptyString => EmptyString
  | String c s' =>
      match s' with
      | String h (String l s'') =>
          match (if Ascii.eqb c "%" then hex_pair h l else None) with
          | Some b => String b (pct_decode s'')
          | None => String c (pct_decode s')
          end
      | _ => String c (pct_decode s')
      end
  end.

(** *** The URL class

    [new URL(s)] for absolute [http:] and [https:] URLs whose authority is a
    plain host name, following the URL standard's parser: surrounding
    controls and spaces are dropped, tabs and newlines removed, scheme and
    host lower-cased, [\] read as [/], dot segments resolved, and path, query
    and fragment percent-encoded with their encode sets.  [None] is the
    [TypeError] of the constructor, and also the answer on every URL outside
    this fragment, whether the constructor accepts it or not: other schemes,
    credentials, ports, hosts with other characters, hosts that end in a
    number (address literals, or a [TypeError]) and hosts with a [xn--]
    label (which the constructor validates).  An answer [Some u] is the
    constructor's. *)

Record URL := mkURL {
  protocol : string;  (* with the trailing colon *)
  host : string;
  pathname : string;
  search : string;    (* empty, or starting with a question mark *)
  hash : string       (* empty, or starting with a number sign *)
}.

Definition origin (u : URL) : string := protocol u +:+ "//" +:+ host u.

Definition href (u : URL) : string :=
  protocol u +:+ "//" +:+ host u +:+ pathname u +:+ search u +:+ hash u.

(** The double quote. *)
Definition dquote : ascii := "034"%char.

Definition c0_control_set (c : ascii) : bool := (code c <=? 31) || (127 <=? code c).
Definition fragment_set (c : ascii) : bool :=
  c0_control_set c || one_of (String " " (String dquote "<>`")) c.
Definition query_set (c : ascii) : bool :=
  c0_control_set c || one_of (String " " (String dquote "#<>")) c.
Definition special_query_set (c : ascii) : bool := query_set c || Ascii.eqb c "'".
Definition path_set (c : ascii) : bool := query_set c || one_of "?^`{}" c.

Definition is_tab_or_newline (c : ascii) : bool :=
  (code c =? 9) || (code c =? 10) || (code c =? 13).
Definition is_c0_or_space (c : ascii) : bool := code c <=? 32.

Fixpoint remove_chars (p : ascii -> bool) (s : string) : string :=
  match s with
  | EmptyString => EmptyString
  | String c s' => if p c then remove_chars p s' else String c (remove_chars p s')
  end.

Fixpoint trim_start (p : ascii -> bool) (s : string) : string :=
  match s with
  | EmptyString => EmptyString
  | String c s' => if p c then trim_start p s' else s
  end.

Fixpoint trim_end (p : ascii -> bool) (s : string) : string :=
  match s with
  | EmptyString => EmptyString
  | String c s' =>
      match trim_end p s' with
      | EmptyString => if p c then EmptyString else String c EmptyString
      | r => String c r
      end
  end.

Definition is_path_sep (c : ascii) : bool := one_of "/\" c.

Definition str_in (s : string) (l : list string) : bool := existsb (String.eqb s) l.

Definition single_dot (seg : string) : bool := str_in (lower seg) ["."; "%2e"].
Definition double_dot (seg : string) : bool :=
  str_in (lower seg) [".."; ".%2e"; "%2e."; "%2e%2e"].

(** The path state of the parser: [pieces] are the texts between
    separators, [acc] the segments so far, last one first. *)
Fixpoint path_state (pieces : list string) (acc : list string) : list string :=
  match pieces with
  | [] => rev acc
  | [p] =>
      if double_dot p then rev (EmptyString :: tail acc)
      else if single_dot p then rev (EmptyString :: acc)
      else rev (pct_encode path_set p :: acc)
  | p :: ps =>
      if double_dot p then path_state ps (tail acc)
      else if single_dot p then path_state ps acc
      else path_state ps (pct_encode path_set p :: acc)
  end.

Definition path_segments (raw : string) : list string :=
  let body :=
    match raw with
    | String c r => if is_path_sep c then r else raw
    | EmptyString => raw
    end in
  path_state (split is_path_sep body) [].

(** What follows the authority: the raw path, the query and the fragment,
    without their delimiters. *)
Definition path_query_fragment (r : string) : string * string * string :=
  let '(raw_path, r3) := take_until (one_of "?#") r in
  let '(q, r4) :=
    match r3 with
    | String "?" r => take_until (one_of "#") r
    | _ => (EmptyString, r3)
    end in
  let f := match r4 with String "#" r => r | _ => EmptyString end in
  (raw_path, q, f).

(** The characters of a plain host name. *)
Definition host_char (c : ascii) : bool := is_alnum c || one_of "-." c.

Definition is_hex (c : ascii) : bool :=
  is_digit c || in_range "a" "f" c || in_range "A" "F" c.

(** The standard's check that a host ends in a number: its last label, a
    final empty one apart, is made of digits or is [0x] followed by
    hexadecimal digits. *)
Definition is_number_label (l : string) : bool :=
  match l with
  | EmptyString => false
  | String "0" (String x r) =>
      str_forallb is_digit l || (one_of "xX" x && str_forallb is_hex r)
  | _ => str_forallb is_digit l
  end.

Definition ends_in_number (host : string) : bool :=
  match rev (split (one_of ".") host) with
  | EmptyString :: l :: _ => is_number_label l
  | l :: _ => is_number_label l
  | [] => false
  end.

Definition is_punycode_label (l : string) : bool :=
  match strip_prefix "xn--" (lower l) with
  | Some _ => true
  | None => false
  end.

(** The hosts of the fragment: on these the standard's host parser is
    lower-casing. *)
Definition plain_host (auth : string) : bool :=
  str_forallb host_char auth
  && negb (ends_in_number auth)
  && negb (existsb is_punycode_label (split (one_of ".") auth)).

Definition url_clean (input : string) : string :=
  remove_chars is_tab_or_newline
    (trim_end is_c0_or_space (trim_start is_c0_or_space input)).

Definition URL_parse (input : string) : option URL :=
  let '(scheme, r0) :=
    take_until (fun c => negb (is_alnum c || one_of "+-." c)) (url_clean input) in
  match scheme, r0 with
  | String c0 _, String ":" r1 =>
      if is_alpha c0 && str_in (lower scheme) ["http"; "https"] then
        let '(auth, r2) := take_until (one_of "/\?#") (trim_start is_path_sep r1) in
        match auth with
        | EmptyString => None
        | _ =>
            if plain_host auth then
              let '(raw_path, q, f) := path_query_fragment r2 in
              Some {| protocol := lower scheme +:+ ":";
                      host := lower auth;
                      pathname := "/" +:+ join "/" (path_segments raw_path);
                      search := match q with
                                | EmptyString => EmptyString
                                | _ => "?" +:+ pct_encode special_query_set q
                                end;
                      hash := match f with
                              | EmptyString => EmptyString
                              | _ => "#" +:+ pct_encode fragment_set f
                              end |}
            else None
        end
      else None
  | _, _ => None
  end.

(** *** URLSearchParams *)

Definition plus_to_space (s : string) : string :=
  (fix go (s : string) : string :=
     match s with
     | EmptyString => EmptyString
     | String c s' => String (if Ascii.eqb c "+" then " "%char else c) (go s')
     end) s.

(** UTF-8 decoding of the decoded bytes, as the Encoding standard does it,
    written back as UTF-8: well-formed sequences stay, and each maximal
    ill-formed part becomes U+FFFD (bytes EF BF BD).  [pending] holds the
    bytes of the sequence being read, [needed] the number of bytes it still
    lacks, [lo] and [hi] the bounds for the next byte. *)
Definition replacement : string :=
  String "239"%char (String "191"%char (String "189"%char EmptyString)).

Record Utf8 := mkUtf8 { pending : string; needed : nat; lo : nat; hi : nat }.

Definition utf8_idle : Utf8 := mkUtf8 EmptyString 0 128 191.

(** A byte read with no sequence under way: what is written, and the state
    after it. *)
Definition utf8_start (b : ascii) : string * Utf8 :=
  let n := code b in
  if n <=? 127 then (String b EmptyString, utf8_idle)
  else if (194 <=? n) && (n <=? 223) then
    (EmptyString, mkUtf8 (String b EmptyString) 1 128 191)
  else if (224 <=? n) && (n <=? 239) then
    (EmptyString,
     mkUtf8 (String b EmptyString) 2 (if n =? 224 then 160 else 128)
       (if n =? 237 then 159 else 191))
  else if (240 <=? n) && (n <=? 244) then
    (EmptyString,
     mkUtf8 (String b EmptyString) 3 (if n =? 240 then 144 else 128)
       (if n =? 244 then 143 else 191))
  else (replacement, utf8_idle).

Definition utf8_step (st : Utf8) (b : ascii) : string * Utf8 :=
  match needed st with
  | 0 => utf8_start b
  | S k =>
      if (lo st <=? code b) && (code b <=? hi st) then
        match k with
        | 0 => (pending st +:+ String b EmptyString, utf8_idle)
        | _ => (EmptyString, mkUtf8 (pending st +:+ String b EmptyString) k 128 191)
        end
      else
        let '(out, st') := utf8_start b in (replacement +:+ out, st')
  end.

Fixpoint utf8_run (st : Utf8) (s : string) : string :=
  match s with
  | EmptyString => match needed st with 0 => EmptyString | _ => replacement end
  | String b s' => let '(out, st') := utf8_step st b in out +:+ utf8_run st' s'
  end.

Definition utf8_decode (s : string) : string := utf8_run utf8_idle s.

(** A name or value of a query string: [+] is a space, escapes are decoded,
    and the bytes read as UTF-8. *)
Definition form_decode (s : string) : string :=
  utf8_decode (pct_decode (plus_to_space s)).

(** [new URLSearchParams(search)]: the name/value pairs in order. *)
Definition URLSearchParams (search : string) : list (string * string) :=
  let body := match search with String "?" r => r | _ => search end in
  omap (fun kv =>
          match kv with
          | EmptyString => None
          | _ =>
              let '(k, r) := take_until (one_of "=") kv in
              let v := match r with String _ v => v | EmptyString => EmptyString end in
              Some (form_decode k, form_decode v)
          end)
       (split (one_of "&") body).

(** [usp.get(name)]: the first value under [name], or [null]. *)
Definition usp_get (usp : list (string * string)) (name : string) : option string :=
  snd <$> List.find (fun kv => String.eqb (fst kv) name) usp.

(** *** Numbers in [dataset] attributes *)

(** [String(n)] for an integer: decimal digits, with a minus sign. *)
Definition String_of_number (z : Z) : string :=
  DecimalString.NilZero.string_of_int (Z.to_int z).

(** [parseInt(s, 10)] on the strings [String] writes, which is all the
    blocks store; [None] is [NaN]. *)
Definition parseInt (s : string) : option Z :=
  Z.of_int <$> DecimalString.NilZero.int_of_string s.

(** *** classList *)

Definition classList_contains (cl : list string) (c : string) : bool := str_in c cl.
Definition classList_remove (c : string) (cl : list string) : list string :=
  List.filter (fun x => negb (String.eqb x c)) cl.
Definition classList_add (c : string) (cl : list string) : list string :=
  if classList_contains cl c then cl else cl ++ [c].
(** [classList.toggle(c, force)] *)
Definition classList_toggle (c : string) (force : bool) (cl : list string) : list string :=
  if force then classList_add c cl else classList_remove c cl.

(** A boolean written into an attribute. *)
Definition String_of_bool (b : bool) : string := if b then "true" else "false".

End Js.
Import Js.

(** ** The image carousel *)

Module Carousel.

(** *** The YouTube id pattern

    [/(?:youtu\.be\/|youtube\.com(?:\/embed\/|\/v\/|\/watch\?v=|\/watch\?.+&v=))([^Q&?\/\s]{11})/]
    (Q for the double quote) as a backtracking matcher: each piece takes the
    rest of the input and a continuation, alternatives are tried in order,
    [.+] is greedy. *)

(** [\s], within ASCII. *)
Definition is_space (c : ascii) : bool := (9 <=? code c) && (code c <=? 13) || (code c =? 32).

(** [[^Q&?\/\s]] *)
Definition id_char (c : ascii) : bool :=
  negb (one_of (String dquote "&?/") c || is_space c).

(** [.] *)
Definition is_line_terminator (c : ascii) : bool := (code c =? 10) || (code c =? 13).

(** [([^Q&?\/\s]{11})], the only capture and the end of the pattern. *)
Definition group1 (s : string) : option string :=
  match take_exact 11 s with
  | Some g => if str_forallb id_char g then Some g else None
  | None => None
  end.

Definition lit (p s : string) (k : string -> option string) : option string :=
  match strip_prefix p s with
  | Some r => k r
  | None => None
  end.

Definition orelse (a b : option string) : option string :=
  match a with
  | Some x => Some x
  | None => b
  end.

Fixpoint dot_star (s : string) (k : string -> option string) : option string :=
  match s with
  | EmptyString => k s
  | String c s' =>
      if is_line_terminator c then k s else orelse (dot_star s' k) (k s)
  end.

Definition dot_plus (s : string) (k : string -> option string) : option string :=
  match s with
  | EmptyString => None
  | String c s' => if is_line_terminator c then None else dot_star s' k
  end.

Definition match_here (s : string) : option string :=
  orelse (lit "youtu.be/" s group1)
    (lit "youtube.com" s (fun r =>
       orelse (lit "/embed/" r group1)
      (orelse (lit "/v/" r group1)
      (orelse (lit "/watch?v=" r group1)
              (lit "/watch?" r (fun r1 => dot_plus r1 (fun r2 => lit "&v=" r2 group1))))))).

(** [url.match(re)?.[1]]: the capture of the leftmost match. *)
Fixpoint youtube_id (url : string) : option string :=
  orelse (match_here url)
    (match url with
     | EmptyString => None
     | String _ url' => youtube_id url'
     end).

(** *** Elements *)

(** The wrapper [createYouTubeEmbed] returns; class, title and [allow] of the
    iframe are constants, the source is what varies. *)
Record Embed := mkEmbed { iframe_src : string }.

(** Modelled from the spec: [createOptimizedPicture] of [scripts/aem.js] is
    not among the sources; the spec has it a pure function that returns an
    element, so the element is represented by the arguments it was built
    from. *)
Record Picture := mkPicture {
  pic_src : string; pic_alt : string; pic_eager : bool; pic_widths : list string
}.
Definition createOptimizedPicture (src alt : string) (eager : bool) (widths : list string)
  : Picture := mkPicture src alt eager widths.

Definition createYouTubeEmbed (url : string) (autoplay : bool) : option Embed :=
  match youtube_id url with
  | None => None
  | Some videoId =>
      Some (mkEmbed ("https://www.youtube.com/embed/" +:+ videoId +:+ "?rel=0&enablejsapi=1"
                     +:+ (if autoplay then "&autoplay=1&mute=1" else EmptyString)))
  end.

(** What a source row holds, in document order.  Links hold text only.  A
    link comes with its [href] attribute as written, which is what an
    attribute selector reads, and with its [href] property, the URL the
    browser resolved the attribute to, which is what [link.href] returns;
    the two are given side by side, neither computed from the other.  The
    property is read as ASCII, which a serialised URL is. *)
Inductive Node :=
| Anchor (attr href : string)
| Image (src alt : string)
| Other (class : string).

Definition Row := list Node.

(** [createYouTubePreview]: the wrapper, its image and the play button. *)
Definition createYouTubePreview (url : string) : option (list Node) :=
  match youtube_id url with
  | None => None
  | Some videoId =>
      Some [Other "image-carousel-preview-wrapper";
            Image ("https://img.youtube.com/vi/" +:+ videoId +:+ "/maxresdefault.jpg")
                  "YouTube video preview";
            Other "youtube-play-button"]
  end.

Inductive Media :=
| Video (e : Embed)
| Pic (p : Picture).

(** A slide element: its classes and its child, if any (the video wrapper or
    the picture). *)
Record Slide := mkSlide { s_classes : list string; s_child : option Media }.

Record Indicator := mkIndicator {
  i_classes : list string;
  i_label : string;        (* aria-label *)
  i_selected : string;     (* aria-selected *)
  i_target : nat           (* the index its click handler scrolls to *)
}.

Record Thumbnail := mkThumbnail {
  t_classes : list string;
  t_label : string;
  t_selected : string;
  t_picture : Picture;
  t_target : nat
}.

Record Block := mkBlock {
  slides : list Slide;          (* .image-carousel-slide, in order *)
  navigation : bool;            (* the prev and next buttons exist *)
  indicators : list Indicator;  (* .image-carousel-indicator, in order *)
  thumbnails : list Thumbnail;  (* .image-carousel-thumbnail, in order *)
  currentSlide : option string  (* dataset.currentSlide *)
}.

(** [arr[i]] for a number [i]: [undefined] out of range. *)
Definition at_index {A} (l : list A) (i : Z) : option A :=
  if (i <? 0)%Z then None else l !! Z.to_nat i.

Definition same_index (index : nat) (activeIndex : Z) : bool :=
  (Z.of_nat index =? activeIndex)%Z.

Definition updateIndicators (b : Block) (activeIndex : Z) : Block :=
  mkBlock (slides b) (navigation b)
    (imap (fun index i =>
             mkIndicator (classList_toggle "active" (same_index index activeIndex) (i_classes i))
               (i_label i) (String_of_bool (same_index index activeIndex)) (i_target i))
          (indicators b))
    (thumbnails b) (currentSlide b).

Definition updateThumbnails (b : Block) (activeIndex : Z) : Block :=
  mkBlock (slides b) (navigation b) (indicators b)
    (imap (fun index t =>
             mkThumbnail (classList_toggle "active" (same_index index activeIndex) (t_classes t))
               (t_label t) (String_of_bool (same_index index activeIndex))
               (t_picture t) (t_target t))
          (thumbnails b))
    (currentSlide b).

(** [slide.querySelector('iframe')] *)
Definition slide_iframe (s : Slide) : option Embed :=
  match s_child s with
  | Some (Video e) => Some e
  | _ => None
  end.

(** [new URL(iframe.src).pathname.split('/').pop()]; [iframe.src] is the
    serialised URL of the attribute, whose path is the path of the parsed
    attribute.  [None] when the constructor throws. *)
Definition src_last_segment (e : Embed) : option string :=
  match URL_parse (iframe_src e) with
  | None => None
  | Some u => last (split is_slash (pathname u))
  end.

(** One rebuild of a slide's embed: a fresh embed from the id read back from
    the present one, put in its place unless [createYouTubeEmbed] returns
    [null].  [None] when reading the source throws. *)
Definition rebuild (autoplay : bool) (s : Slide) : option Slide :=
  match slide_iframe s with
  | None => Some s
  | Some iframe =>
      match src_last_segment iframe with
      | None => None
      | Some url =>
          match createYouTubeEmbed ("https://youtube.com/watch?v=" +:+ url) autoplay with
          | Some newEmbed => Some (mkSlide (s_classes s) (Some (Video newEmbed)))
          | None => Some s
          end
      end
  end.

(** The block is attached to the page, so every iframe has a content window
    and [postMessage] does not throw; the message leaves the block as it
    is. *)
Definition handleVideoPlayback (b : Block) (index : Z) : option Block :=
  match mapM (rebuild false) (slides b) with
  | None => None
  | Some paused =>
      let b1 := mkBlock paused (navigation b) (indicators b) (thumbnails b) (currentSlide b) in
      match at_index paused index with
      | Some activeSlide =>
          if classList_contains (s_classes activeSlide) "video-slide" then
            match rebuild true activeSlide with
            | None => None
            | Some s' =>
                Some (mkBlock (<[Z.to_nat index := s']> paused) (navigation b)
                        (indicators b) (thumbnails b) (currentSlide b))
            end
          else Some b1
      | None => Some b1
      end
  end.

Definition deactivate (s : Slide) : Slide :=
  mkSlide (classList_remove "active" (s_classes s)) (s_child s).
Definition activate (s : Slide) : Slide :=
  mkSlide (classList_add "active" (s_classes s)) (s_child s).

(** The index [scrollToSlide] settles on. *)
Definition normalize (length index : Z) : Z :=
  if (index <? 0)%Z then (length - 1)%Z
  else if (index >=? length)%Z then 0%Z
  else index.

(** [scrollToSlide(block, index)], the spec's [goToSlide]; [None] is a
    [TypeError]. *)
Definition scrollToSlide (b : Block) (index : Z) : option Block :=
  let slideElements := slides b in
  let index := normalize (Z.of_nat (length slideElements)) index in
  let cleared := deactivate <$> slideElements in
  match at_index cleared index with
  | None => None
  | Some target =>
      let b1 := mkBlock (<[Z.to_nat index := activate target]> cleared)
                  (navigation b) (indicators b) (thumbnails b) (currentSlide b) in
      match handleVideoPlayback b1 index with
      | None => None
      | Some b2 =>
          let b3 := updateThumbnails (updateIndicators b2 index) index in
          Some (mkBlock (slides b3) (navigation b3) (indicators b3) (thumbnails b3)
                  (Some (String_of_number index)))
      end
  end.


(** *** Handlers *)

(** The click handlers of the prev and next buttons. *)
Definition prev_click (b : Block) : option Block :=
  match currentSlide b ≫= parseInt with
  | None => None
  | Some currentIndex => scrollToSlide b (currentIndex - 1)
  end.

Definition next_click (b : Block) : option Block :=
  match currentSlide b ≫= parseInt with
  | None => None
  | Some currentIndex => scrollToSlide b (currentIndex + 1)
  end.

(** The click handler of an indicator or of a thumbnail. *)
Definition target_click (b : Block) (target : nat) : option Block :=
  scrollToSlide b (Z.of_nat target).

(** The observer callback, for one intersecting entry whose target is the
    slide at [slideIndex]. *)
Definition observe_entry (b : Block) (slideIndex : nat) : option Block :=
  if decide (currentSlide b ≫= parseInt = Some (Z.of_nat slideIndex)) then Some b
  else scrollToSlide b (Z.of_nat slideIndex).

(** *** Decoration *)

Definition slide_label (index : nat) : string :=
  "Go to slide " +:+ String_of_number (Z.of_nat index + 1).

Definition createIndicators (count : nat) : list Indicator :=
  (fun i => mkIndicator ["image-carousel-indicator"] (slide_label i)
              (String_of_bool (i =? 0)) i) <$> seq 0 count.

(** The first element satisfying [p], with its position counted from [i]. *)
Fixpoint find_from {A} (p : A -> bool) (i : nat) (l : list A) : option (nat * A) :=
  match l with
  | [] => None
  | x :: l' => if p x then Some (i, x) else find_from p (S i) l'
  end.

(** [slide.querySelector('img')] on a source row: source and alt text. *)
Definition row_img (r : Row) : option (string * string) :=
  match find_from (fun n => match n with Image _ _ => true | _ => false end) 0 r with
  | Some (_, Image src alt) => Some (src, alt)
  | _ => None
  end.

Definition createThumbnails (rows : list Row) : list Thumbnail :=
  omap id
    (imap (fun index row =>
             match row_img row with
             | Some (src, _) =>
                 Some (mkThumbnail
                         (if index =? 0
                          then classList_add "active" ["image-carousel-thumbnail"]
                          else ["image-carousel-thumbnail"])
                         (slide_label index) (String_of_bool (index =? 0))
                         (createOptimizedPicture src EmptyString false ["160"]) index)
             | None => None
             end)
          rows).

(** [a[href*=Qyoutube.comQ], a[href*=Qyoutu.beQ]] (Q for the double quote):
    a substring test, case-sensitive, on the attribute as written. *)
Definition is_youtube_anchor (n : Node) : bool :=
  match n with
  | Anchor attr _ => includes attr "youtube.com" || includes attr "youtu.be"
  | _ => false
  end.

(** [slide.querySelector('a[href*=...], a[href*=...]')], the first link of
    the row that matches, with its position, and [link.href] of that
    link. *)
Definition row_link (r : Row) : option (nat * string) :=
  match find_from is_youtube_anchor 0 r with
  | Some (i, Anchor _ href) => Some (i, href)
  | _ => None
  end.

(** [link.replaceWith(preview, linkWrapper)] *)
Definition replace_link (r : Row) (i : nat) (preview : list Node) : Row :=
  take i r ++ preview ++ [Other "youtube-link-wrapper"; Other "youtube-url"] ++ drop (S i) r.

(** The body of the loop over the source rows: the slide built for the row,
    and the row as the loop leaves it. *)
Definition decorate_slide (index : nat) (row : Row) : Slide * Row :=
  let classes :=
    if index =? 0 then classList_add "active" ["image-carousel-slide"]
    else ["image-carousel-slide"] in
  match row_link row with
  | Some (i, href) =>
      match createYouTubeEmbed href false with
      | Some videoEmbed =>
          (mkSlide (classList_add "video-slide" classes) (Some (Video videoEmbed)),
           match createYouTubePreview href with
           | Some preview => replace_link row i preview
           | None => row
           end)
      | None => (mkSlide classes None, row)
      end
  | None =>
      match row_img row with
      | Some (src, alt) =>
          (mkSlide classes (Some (Pic (createOptimizedPicture src alt false ["2000"; "750"]))),
           row)
      | None => (mkSlide classes None, row)
      end
  end.

(** [decorate(block)] on the rows of the block. *)
Definition decorate (rows : list Row) : Block :=
  let built := imap decorate_slide rows in
  let slideDivs := fst <$> built in
  let rows' := snd <$> built in
  if 1 <? length rows
  then mkBlock slideDivs true (createIndicators (length rows)) (createThumbnails rows')
         (Some (String_of_number 0))
  else mkBlock slideDivs false [] [] None.

(** *** Reading a block *)

Definition is_active (cl : list string) : bool := classList_contains cl "active".

(** The positions in [l] of the elements satisfying [p], counted from [i]. *)
Fixpoint positions {A} (p : A -> bool) (i : nat) (l : list A) : list nat :=
  match l with
  | [] => []
  | x :: l' => if p x then i :: positions p (S i) l' else positions p (S i) l'
  end.

(** The indices of the slides carrying the active marking. *)
Definition active_slides (b : Block) : list nat :=
  positions (fun s => is_active (s_classes s)) 0 (slides b).

(** The slide indices the active indicators and thumbnails point at. *)
Definition active_indicator_targets (b : Block) : list nat :=
  i_target <$> List.filter (fun i => is_active (i_classes i)) (indicators b).
Definition active_thumbnail_targets (b : Block) : list nat :=
  t_target <$> List.filter (fun t => is_active (t_classes t)) (thumbnails b).

(** The source of the video embed of slide [i], if it has one. *)
Definition embed_src (b : Block) (i : nat) : option string :=
  match slides b !! i with
  | Some s => iframe_src <$> slide_iframe s
  | None => None
  end.

(** The autoplaying variant carries the autoplay and mute parameters. *)
Definition is_autoplay (src : string) : bool := includes src "&autoplay=1&mute=1".

(** The transitions of the spec: [goToSlide] runs, in order. *)
Fixpoint goToSlides (b : Block) (targets : list Z) : option Block :=
  match targets with
  | [] => Some b
  | t :: ts =>
      match scrollToSlide b t with
      | None => None
      | Some b' => goToSlides b' ts
      end
  end.

End Carousel.
(** ** The video hero *)

Module VideoHero.

(** The embed inside a [video-hero-background] wrapper.  The iframes are
    written as markup and handed to [innerHTML]; [src] of [Iframe] is the
    text the template puts between the quotes of the attribute.  The HTML
    parser decodes character references in that text, so the attribute of
    the element is this text exactly when the text holds no ampersand that
    starts a reference; the fixed parts of the templates hold none, and an
    id of letters, digits, hyphens and underscores adds none. *)
Inductive EmbedEl :=
| Iframe (src : string)
| VideoEl (src type : string).

Inductive Child :=
| Text (s : string)
| Content (headings : list (string * string))  (* tag and text, in order *)
| Background (e : EmbedEl).

Record Block := mkBlock {
  children : list Child;
  classList : list string;
  embedLoaded : option string;  (* dataset.embedLoaded *)
  observing : bool;             (* an observer is connected and watches the block *)
  link : string                 (* the URL the observer callback closes over *)
}.

(** What [decorate] reads from the block: the [href] of its first anchor and
    the text of its first [h1] and [h2], and the classes it carries. *)
Record Source := mkSource {
  anchor : option string;
  h1 : option string;
  h2 : option string;
  classes : list string
}.

Definition truthy (s : string) : bool := negb (String.eqb s EmptyString).

(** [obj[key] = value] on an object holding [key]: entries keep their
    order. *)
Definition assign (key value : string) (obj : list (string * string)) : list (string * string) :=
  (fun kv => if String.eqb (fst kv) key then (key, value) else kv) <$> obj.

Definition params (obj : list (string * string)) : string :=
  join "&" ((fun kv => fst kv +:+ "=" +:+ encodeURIComponent (snd kv)) <$> obj).

(** [[, x] = arr]; a missing element is [undefined], which the callers only
    test for truth, as the empty string. *)
Definition second (arr : list string) : string := default EmptyString (arr !! 1).

Definition embedYoutube (url : URL) : Child :=
  let usp := URLSearchParams (search url) in
  let suffixParams :=
    [("autoplay", "1"); ("mute", "1"); ("controls", "0"); ("disablekb", "1");
     ("loop", "1"); ("playsinline", "1"); ("playlist", EmptyString)] in
  let vid :=
    match usp_get usp "v" with
    | Some v => if truthy v then encodeURIComponent v else EmptyString
    | None => EmptyString
    end in
  let embed := pathname url in
  let vid := if includes (origin url) "youtu.be" then second (split is_slash (pathname url)) else vid in
  let suffixParams := if truthy vid then assign "playlist" vid suffixParams else suffixParams in
  let suffix := "&" +:+ params suffixParams in
  Background
    (Iframe ("https://www.youtube.com"
             +:+ (if truthy vid then "/embed/" +:+ vid +:+ "?rel=0&v=" +:+ vid +:+ suffix
                  else embed))).

Definition embedVimeo (url : URL) : Child :=
  let video := second (split is_slash (pathname url)) in
  let suffixParams := [("autoplay", "1"); ("background", "1"); ("loop", "1"); ("muted", "1")] in
  let suffix := "?" +:+ params suffixParams in
  Background (Iframe ("https://player.vimeo.com/video/" +:+ video +:+ suffix)).

Definition getVideoElement (source : string) : Child :=
  Background
    (VideoEl source ("video/" +:+ default EmptyString (last (split (one_of ".") source)))).

(** [loadVideoEmbed(block, link)]; [None] when [new URL(link)] throws. *)
Definition loadVideoEmbed (b : Block) (link : string) : option Block :=
  if decide (embedLoaded b = Some "true") then Some b
  else
    match URL_parse link with
    | None => None
    | Some url =>
        let isYoutube := includes link "youtube" || includes link "youtu.be" in
        let isVimeo := includes link "vimeo" in
        let embedWrapper :=
          if isYoutube then embedYoutube url
          else if isVimeo then embedVimeo url
          else getVideoElement link in
        Some (mkBlock (embedWrapper :: children b) (classList b) (embedLoaded b)
                (observing b) (VideoHero.link b))
    end.

Definition heading (tag : string) (text : option string) : list (string * string) :=
  let text := default EmptyString text in
  if truthy text then [(tag, text)] else [].

(** [decorate(block)] *)
Definition decorate (src : Source) : Block :=
  let link := default EmptyString (anchor src) in
  if negb (truthy link)
  then mkBlock [Text "Video URL is required"] (classes src) None false link
  else mkBlock [Content (heading "h1" (h1 src) ++ heading "h2" (h2 src))]
         (classes src) (Some (String_of_bool false)) true link.

(** The observer callback, given [isIntersecting] of each entry and
    [prefersReducedMotion.matches] as it is when the callback runs.  A throw
    in [loadVideoEmbed] ends the callback with the observer disconnected. *)
Definition callback (entries : list bool) (reducedMotion : bool) (b : Block) : Block :=
  if existsb id entries then
    let b1 := mkBlock (children b) (classList b) (embedLoaded b) false (link b) in
    if negb reducedMotion then
      match loadVideoEmbed b1 (link b) with
      | Some b2 => b2
      | None => b1
      end
    else mkBlock (children b1) (classList_add "no-video" (classList b1)) (embedLoaded b1)
           (observing b1) (link b1)
  else b.

Definition is_embed (c : Child) : bool :=
  match c with
  | Background _ => true
  | _ => false
  end.

(** The embeds constructed and inserted; nothing ever removes one. *)
Definition embeds (b : Block) : list Child := List.filter is_embed (children b).

(** What happens to a decorated block: the browser delivers intersection
    entries to the callback while the observer is connected, and the load
    event of an inserted iframe (or [canplay] of the video) fires. *)
Inductive Event :=
| Intersection (entries : list bool) (reducedMotion : bool)
| EmbedReady.

Definition step (b : Block) (e : Event) : Block :=
  match e with
  | Intersection entries reducedMotion =>
      if observing b then callback entries reducedMotion b else b
  | EmbedReady =>
      match embeds b with
      | [] => b
      | _ => mkBlock (children b) (classList b) (Some (String_of_bool true))
               (observing b) (link b)
      end
  end.

Definition run (b : Block) (evs : list Event) : Block := fold_left step evs b.

(** The reduced-motion signal at the first delivery with an intersecting
    entry. *)
Fixpoint first_trigger (evs : list Event) : option bool :=
  match evs with
  | [] => None
  | Intersection entries reducedMotion :: evs' =>
      if existsb id entries then Some reducedMotion else first_trigger evs'
  | EmbedReady :: evs' => first_trigger evs'
  end.

End VideoHero.

Import Carousel.

(** ** Vocabulary of the statements *)

(** A captured id: eleven characters of the class. *)
Definition valid_id (id : string) : bool :=
  (String.length id =? 11) && str_forallb id_char id.

(** The characters the URL parser leaves alone inside a path segment. *)
Definition path_stable (c : ascii) : bool :=
  id_char c && negb (path_set c) && negb (is_path_sep c).

(** What a piece of a path made of id characters looks like. *)
Definition piece_char (c : ascii) : bool := id_char c && negb (is_path_sep c).

Definition stable_segment (w : string) : Prop := str_forallb path_stable w = true.

(** The source [createYouTubeEmbed] writes for an id. *)
Definition embed_source (videoId : string) (autoplay : bool) : string :=
  "https://www.youtube.com/embed/" +:+ videoId +:+ "?rel=0&enablejsapi=1"
  +:+ (if autoplay then "&autoplay=1&mute=1" else EmptyString).

(** The index the spec's property writes, with the remainder of the
    language (sign of the dividend). *)
Definition modular_index (length targetIndex : Z) : Z :=
  Z.rem (Z.rem targetIndex length + length) length.

(** A row for which a thumbnail is built: it holds an image, or the link
    [decorate] picks in it -- the first one whose [href] attribute contains
    [youtube.com] or [youtu.be] -- has an [href] in which the pattern finds
    an id (that link is replaced by a preview that holds an image).  Links
    after the first matching one are not looked at. *)
Definition shows_image (row : Row) : bool :=
  match row_img row with
  | Some _ => true
  | None =>
      match row_link row with
      | Some (_, href) => bool_decide (is_Some (youtube_id href))
      | None => false
      end
  end.

(** The alphabet of the ids YouTube issues. *)
Definition youtube_alphabet (c : ascii) : bool := is_alnum c || one_of "-_" c.

(** The carousel of the spec's scenario. *)
Definition three_slides : list Row :=
  [[Image "a.jpg" "Image A"];
   [Anchor "https://www.youtube.com/watch?v=XYZ12345678"
      "https://www.youtube.com/watch?v=XYZ12345678"];
   [Image "b.jpg" "Image B"]].

(** A carousel whose second row holds neither an image nor a video. *)
Definition gap_slides : list Row :=
  [[Image "a.jpg" "Image A"]; [Other "p"]; [Image "c.jpg" "Image C"]].

(** A carousel with a link in which the pattern finds no id and a row with
    no image. *)
Definition broken_slides : list Row :=
  [[Image "a.jpg" "Image A"];
   [Anchor "https://www.youtube.com/playlist?list=PL123"
      "https://www.youtube.com/playlist?list=PL123"];
   [Other "p"]].

(** The invariant of the video hero: while the observer is connected nothing
    has been built; once it is disconnected at most one embed has. *)
Definition at_most_once (b : VideoHero.Block) : Prop :=
  if VideoHero.observing b then VideoHero.embeds b = []
  else length (VideoHero.embeds b) <= 1.

(** Indicators and thumbnails are aligned with the slides when there is one
    of each per slide, at the slide's position. *)
Definition aligned (b : Block) : Prop :=
  length (indicators b) = length (slides b)
  /\ length (thumbnails b) = length (slides b)
  /\ (forall i x, indicators b !! i = Some x -> i_target x = i)
  /\ (forall i x, thumbnails b !! i = Some x -> t_target x = i).

(** An embed that [createYouTubeEmbed] returned. *)
Definition built_embed (e : Embed) : Prop :=
  exists url autoplay, createYouTubeEmbed url autoplay = Some e.

(** Every iframe of the block is such an embed; nothing else ever puts an
    iframe into a slide. *)
Definition well_formed_slide (s : Slide) : Prop :=
  match slide_iframe s with
  | Some e => built_embed e
  | None => True
  end.
Definition well_formed (b : Block) : Prop := Forall well_formed_slide (slides b).

(** [rebuild] where it does not throw. *)
Definition rebuilt (autoplay : bool) (s : Slide) : Slide := default s (rebuild autoplay s).

(** What a run of [scrollToSlide] that settles on [k] makes of the slide at
    [i]. *)
Definition play (s : Slide) : Slide :=
  if classList_contains (s_classes s) "video-slide" then rebuilt true s else s.
Definition settle (k i : nat) (s : Slide) : Slide :=
  if i =? k then play (rebuilt false (activate (deactivate s)))
  else rebuilt false (deactivate s).
Definition settled (k : nat) (b : Block) : Block :=
  let b' := updateThumbnails (updateIndicators b (Z.of_nat k)) (Z.of_nat k) in
  Carousel.mkBlock (imap (settle k) (slides b)) (navigation b) (indicators b') (thumbnails b')
    (Some (String_of_number (Z.of_nat k))).

(** A slide whose embed is the autoplaying variant. *)
Definition autoplaying (s : Slide) : bool :=
  match slide_iframe s with
  | Some e => is_autoplay (iframe_src e)
  | None => false
  end.

(** The indices of the slides whose embed autoplays. *)
Definition playing_slides (b : Block) : list nat := positions autoplaying 0 (slides b).

(** Well-formed, and an autoplaying embed has an id the parser leaves alone:
    autoplaying embeds only ever come out of a rebuild. *)
Definition calm_slide (s : Slide) : Prop :=
  match slide_iframe s with
  | Some e =>
      exists id autoplay, valid_id id = true /\ e = mkEmbed (embed_source id autoplay)
                          /\ (autoplay = true -> str_forallb path_stable id = true)
  | None => True
  end.
Definition calm (b : Block) : Prop := Forall calm_slide (slides b).

(** The [video-slide] class marks exactly the slides that hold an iframe. *)
Definition video_class_matches (s : Slide) : Prop :=
  classList_contains (s_classes s) "video-slide" = bool_decide (is_Some (slide_iframe s)).

(** The video hero never has both: while the observer is connected there is
    neither an embed nor the [no-video] class, afterwards at most one of the
    two. *)
Definition embed_or_class (b : VideoHero.Block) : Prop :=
  if VideoHero.observing b
  then VideoHero.embeds b = []
       /\ classList_contains (VideoHero.classList b) "no-video" = false
  else VideoHero.embeds b = []
       \/ classList_contains (VideoHero.classList b) "no-video" = false.

(** Characters no stage of the URL parser touches: letters, digits, hyphen,
    underscore and the equals sign. *)
Definition plain_char (c : ascii) : bool := is_alnum c || one_of "-_=" c.

(** The source of the background iframe for a YouTube id, and for a Vimeo
    id. *)
Definition hero_youtube_source (vid : string) : string :=
  "https://www.youtube.com/embed/" +:+ vid +:+ "?rel=0&v=" +:+ vid
  +:+ "&autoplay=1&mute=1&controls=0&disablekb=1&loop=1&playsinline=1&playlist=" +:+ vid.
Definition hero_vimeo_source (video : string) : string :=
  "https://player.vimeo.com/video/" +:+ video +:+ "?autoplay=1&background=1&loop=1&muted=1".

(** ** Facts about characters *)

Ltac by_cases_on_char c :=
  destruct c as [[] [] [] [] [] [] [] []]; try reflexivity; try discriminate.

Lemma id_char_not_tab_or_newline c : id_char c = true -> is_tab_or_newline c = false.
Proof. by_cases_on_char c. Qed.

Lemma pct_path_stable c : str_forallb path_stable (pct c) = true.
Proof. by_cases_on_char c. Qed.

(** ** The model on concrete inputs *)

Example youtube_id_watch_example :
  youtube_id "https://www.youtube.com/watch?v=XYZ12345678" = Some "XYZ12345678".
Proof. reflexivity. Qed.

Example youtube_id_short_example :
  youtube_id "https://youtu.be/dQw4w9WgXcQ?t=1" = Some "dQw4w9WgXcQ".
Proof. reflexivity. Qed.

(** The greedy [.+] takes the last [&v=] that an id follows. *)
Example youtube_id_greedy_example :
  youtube_id "https://www.youtube.com/watch?list=abc&v=abcdefghijk&v=ABCDEFGHIJKL"
  = Some "ABCDEFGHIJK".
Proof. reflexivity. Qed.

Example youtube_id_short_id_example :
  youtube_id "https://youtube.com/watch?v=abc" = None.
Proof. reflexivity. Qed.

Example youtube_id_playlist_example :
  youtube_id "https://www.youtube.com/playlist?list=PL123" = None.
Proof. reflexivity. Qed.

Example URL_parse_short_example :
  URL_parse "https://youtu.be/dQw4w9WgXcQ"
  = Some (mkURL "https:" "youtu.be" "/dQw4w9WgXcQ" EmptyString EmptyString).
Proof. reflexivity. Qed.

Example URL_parse_normalizes_example :
  URL_parse "HTTPS:\\Example.com\a\..\b/./c/%2E%2e?x y'#f g"
  = Some (mkURL "https:" "example.com" "/b/" "?x%20y%27" "#f%20g").
Proof. reflexivity. Qed.

Example URL_parse_relative_example : URL_parse "/media/clip.mp4" = None.
Proof. reflexivity. Qed.

(** Parsing a serialised URL gives the same URL back, as used in
    [src_last_segment]. *)
Example URL_parse_href_example :
  exists u, URL_parse "https://www.youtube.com/embed/abc{defghij?rel=0&enablejsapi=1" = Some u
            /\ pathname u = "/embed/abc%7Bdefghij"
            /\ URL_parse (href u) = Some u.
Proof. eexists. split; [reflexivity |]. split; reflexivity. Qed.

(** A host that ends in a number is an address or an error, and a [xn--]
    label is validated: both are outside the fragment. *)
Example URL_parse_number_host_example :
  URL_parse "https://example.1/clip.mp4" = None
  /\ URL_parse "https://127.0.0.1/clip.mp4" = None
  /\ URL_parse "https://xn--a.example/clip.mp4" = None
  /\ URL_parse "https://1.example./clip.mp4"
     = Some (mkURL "https:" "1.example." "/clip.mp4" EmptyString EmptyString).
Proof. by vm_compute. Qed.

(** Decoded bytes are read as UTF-8: a lone [E9] becomes U+FFFD, the two
    bytes of a well-formed sequence stay. *)
Example usp_get_utf8_example :
  encodeURIComponent <$> usp_get (URLSearchParams "?v=%E9") "v" = Some "%EF%BF%BD"
  /\ encodeURIComponent <$> usp_get (URLSearchParams "?v=%C3%A9x") "v" = Some "%C3%A9x"
  /\ encodeURIComponent <$> usp_get (URLSearchParams "?v=%ED%A0%80") "v"
     = Some "%EF%BF%BD%EF%BF%BD%EF%BF%BD".
Proof. by vm_compute. Qed.

(** The selector picks the first link whose attribute matches, and reads the
    attribute as written: a channel link before a video link hides the
    video, and a host written with capitals is not matched. *)
Example row_link_first_example :
  row_link [Anchor "https://www.youtube.com/@channel" "https://www.youtube.com/@channel";
            Anchor "https://youtu.be/dQw4w9WgXcQ" "https://youtu.be/dQw4w9WgXcQ"]
  = Some (0, "https://www.youtube.com/@channel")
  /\ row_link [Anchor "https://YouTube.com/watch?v=dQw4w9WgXcQ"
                 "https://youtube.com/watch?v=dQw4w9WgXcQ"] = None
  /\ row_link [Anchor "/watch?v=dQw4w9WgXcQ" "https://www.youtube.com/watch?v=dQw4w9WgXcQ"]
     = None.
Proof. by vm_compute. Qed.

Example usp_get_example :
  usp_get (URLSearchParams "?a=1&v=x%20y+z&v=2") "v" = Some "x y z".
Proof. reflexivity. Qed.

Example number_strings_example :
  String_of_number (-1) = "-1" /\ String_of_number 0 = "0" /\ parseInt "12" = Some 12%Z.
Proof. by vm_compute. Qed.

(** ** Facts about strings *)

#[local] Arguments String.append !_ _ / : simpl nomatch.

Section StringFacts.

Implicit Types (s a b r : string) (c : ascii) (p stop : ascii -> bool).

Lemma append_nil_r s : s +:+ EmptyString = s.
Proof. induction s as [|c s IH]; simpl; [done | by rewrite IH]. Qed.

Lemma append_assoc a b r : (a +:+ b) +:+ r = a +:+ (b +:+ r).
Proof. induction a as [|c a IH]; simpl; [done | by rewrite IH]. Qed.

Lemma str_forallb_app p a b :
  str_forallb p (a +:+ b) = str_forallb p a && str_forallb p b.
Proof. induction a as [|c a IH]; simpl; [done | by rewrite IH, andb_assoc]. Qed.

Lemma str_forallb_impl p (q : ascii -> bool) s :
  (forall c, p c = true -> q c = true) ->
  str_forallb p s = true -> str_forallb q s = true.
Proof.
  intros Hpq. induction s as [|c s IH]; simpl; [done |].
  intros [Hc Hs]%andb_true_iff. rewrite (Hpq c Hc). by apply IH.
Qed.

Lemma remove_chars_none p s :
  str_forallb (fun c => negb (p c)) s = true -> remove_chars p s = s.
Proof.
  induction s as [|c s IH]; simpl; [done |].
  intros [Hc Hs]%andb_true_iff. apply negb_true_iff in Hc. rewrite Hc.
  by rewrite IH.
Qed.

Lemma trim_end_app p a b :
  trim_end p b <> EmptyString -> trim_end p (a +:+ b) = a +:+ trim_end p b.
Proof.
  intros Hb. induction a as [|c a IH]; simpl; [done |].
  rewrite IH. destruct (a +:+ trim_end p b) eqn:E; [| done].
  destruct a; simpl in E; [done | discriminate].
Qed.

Lemma trim_end_app_fixed p a b :
  trim_end p b = b -> b <> EmptyString -> trim_end p (a +:+ b) = a +:+ b.
Proof. intros E Hb. rewrite trim_end_app; by rewrite E. Qed.

Lemma append_nonempty_r a b : b <> EmptyString -> a +:+ b <> EmptyString.
Proof. by destruct a, b. Qed.

(** Up to a stop character that follows [a], [take_until] only looks at
    [a]. *)
Lemma take_until_app_fst stop a c r :
  stop c = true ->
  exists c' r', take_until stop (a +:+ String c r) = (fst (take_until stop a), String c' r')
                /\ stop c' = true.
Proof.
  intros Hc. induction a as [|x a IH]; simpl.
  - rewrite Hc. by exists c, r.
  - destruct (stop x) eqn:Hx.
    + by exists x, (a +:+ String c r).
    + destruct IH as (c' & r' & -> & Hc'). destruct (take_until stop a). simpl.
      by exists c', r'.
Qed.

Lemma take_until_fst_keeps p stop s :
  str_forallb p s = true -> str_forallb p (fst (take_until stop s)) = true.
Proof.
  induction s as [|c s IH]; simpl; [done |].
  intros [Hc Hs]%andb_true_iff. destruct (stop c); [done |].
  destruct (take_until stop s). simpl in *. by rewrite Hc, IH.
Qed.

Lemma take_until_none stop s :
  str_forallb (fun x => negb (stop x)) s = true -> fst (take_until stop s) = s.
Proof.
  induction s as [|c s IH]; simpl; [done |].
  intros [Hc Hs]%andb_true_iff. apply negb_true_iff in Hc. rewrite Hc.
  specialize (IH Hs). destruct (take_until stop s). simpl in *. by rewrite IH.
Qed.

Lemma strip_prefix_Some a s r : strip_prefix a s = Some r -> s = a +:+ r.
Proof.
  revert s. induction a as [|x a IH]; intros s; simpl.
  - by intros [= ->].
  - destruct s as [|y s]; [done |].
    destruct (Ascii.eqb_spec x y) as [->|]; [| done].
    intros H. by rewrite (IH _ H).
Qed.

Lemma strip_prefix_app a r : strip_prefix a (a +:+ r) = Some r.
Proof.
  induction a as [|x a IH]; simpl; [done |]. by rewrite Ascii.eqb_refl.
Qed.

Lemma take_exact_Some n s g :
  take_exact n s = Some g -> String.length g = n /\ exists r, s = g +:+ r.
Proof.
  revert s g. induction n as [|n IH]; intros s g; simpl.
  - intros [= <-]. split; [done |]. by exists s.
  - destruct s as [|c s]; [done |].
    destruct (take_exact n s) as [g'|] eqn:E; simpl; [| done].
    intros [= <-]. destruct (IH _ _ E) as [Hl [r ->]]. simpl. split; [by rewrite Hl |].
    by exists r.
Qed.

Lemma take_exact_all s : take_exact (String.length s) s = Some s.
Proof. induction s as [|c s IH]; simpl; [done | by rewrite IH]. Qed.

Lemma take_exact_short n s : String.length s < n -> take_exact n s = None.
Proof.
  revert s. induction n as [|n IH]; intros s; [lia |].
  destruct s as [|c s]; simpl; [done |]. intros H. rewrite IH; [done | lia].
Qed.

End StringFacts.

Section SplitFacts.

Implicit Types (s a w r : string) (c : ascii) (p sep : ascii -> bool).

Lemma split_nonempty sep s : split sep s <> [].
Proof.
  destruct s as [|c s]; simpl; [done |].
  destruct (sep c); [done |]. by destruct (split sep s).
Qed.

Lemma split_no_sep sep s :
  str_forallb (fun c => negb (sep c)) s = true -> split sep s = [s].
Proof.
  induction s as [|c s IH]; simpl; [done |].
  intros [Hc Hs]%andb_true_iff. apply negb_true_iff in Hc.
  by rewrite Hc, (IH Hs).
Qed.

Lemma split_app_sep sep a c r :
  str_forallb (fun c => negb (sep c)) a = true -> sep c = true ->
  split sep (a +:+ String c r) = a :: split sep r.
Proof.
  intros Ha Hc. induction a as [|x a IH]; simpl in *.
  - by rewrite Hc.
  - apply andb_true_iff in Ha as [Hx Ha]. apply negb_true_iff in Hx.
    by rewrite Hx, (IH Ha).
Qed.

Lemma join_cons_cons sepstr w w' ws :
  join sepstr (w :: w' :: ws) = w +:+ sepstr +:+ join sepstr (w' :: ws).
Proof. done. Qed.

Lemma split_join segs :
  segs <> [] ->
  Forall (fun w => str_forallb (fun c => negb (is_slash c)) w = true) segs ->
  split is_slash (join "/" segs) = segs.
Proof.
  intros Hne Hall. induction Hall as [|w ws Hw Hws IH]; [done |].
  destruct ws as [|w' ws].
  - simpl. by apply split_no_sep.
  - change (split is_slash (w +:+ String "/" (join "/" (w' :: ws))) = w :: w' :: ws).
    rewrite split_app_sep; [| done | done]. by rewrite IH.
Qed.

Lemma pct_encode_none (must : ascii -> bool) s :
  str_forallb (fun c => negb (must c)) s = true -> pct_encode must s = s.
Proof.
  induction s as [|c s IH]; simpl; [done |].
  intros [Hc Hs]%andb_true_iff. apply negb_true_iff in Hc.
  by rewrite Hc, (IH Hs).
Qed.

End SplitFacts.

(** ** Facts about the URL parser *)

Section UrlFacts.

Implicit Types (s w raw : string) (c : ascii).

Lemma path_stable_not_encoded c : path_stable c = true -> negb (path_set c) = true.
Proof. by_cases_on_char c. Qed.

Lemma path_stable_id_char c : path_stable c = true -> id_char c = true.
Proof. by_cases_on_char c. Qed.

Lemma path_stable_piece_char c : path_stable c = true -> piece_char c = true.
Proof. by_cases_on_char c. Qed.

Lemma path_stable_not_slash c : path_stable c = true -> negb (is_slash c) = true.
Proof. by_cases_on_char c. Qed.

Lemma path_stable_not_stop c : path_stable c = true -> negb (one_of "?#" c) = true.
Proof. by_cases_on_char c. Qed.

Lemma piece_char_encoded c :
  piece_char c = true -> path_set c = false -> path_stable c = true.
Proof. by_cases_on_char c. Qed.

Lemma pct_encode_path_stable w :
  str_forallb piece_char w = true ->
  str_forallb path_stable (pct_encode path_set w) = true.
Proof.
  induction w as [|c w IH]; [done |].
  cbn [str_forallb pct_encode]. intros [Hc Hw]%andb_true_iff.
  destruct (path_set c) eqn:E.
  - rewrite str_forallb_app, pct_path_stable. by apply IH.
  - cbn [str_forallb]. rewrite (piece_char_encoded c Hc E). by apply IH.
Qed.

Lemma length_lower s : String.length (lower s) = String.length s.
Proof. induction s as [|c s IH]; simpl; [done | by rewrite IH]. Qed.

Lemma str_in_length s l :
  str_in s l = true -> exists t, In t l /\ String.length t = String.length s.
Proof.
  unfold str_in. intros (t & Ht & E)%existsb_exists.
  apply String.eqb_eq in E. subst. by exists t.
Qed.

Lemma long_not_dot s :
  6 < String.length s -> single_dot s = false /\ double_dot s = false.
Proof.
  intros Hl. split.
  - destruct (single_dot s) eqn:E; [| done].
    apply str_in_length in E as (t & Ht & E). rewrite length_lower in E.
    simpl in Ht. destruct Ht as [<- | [<- | []]]; simpl in E; lia.
  - destruct (double_dot s) eqn:E; [| done].
    apply str_in_length in E as (t & Ht & E). rewrite length_lower in E.
    simpl in Ht. destruct Ht as [<- | [<- | [<- | [<- | []]]]]; simpl in E; lia.
Qed.

Lemma path_state_stable pieces acc :
  pieces <> [] ->
  Forall (fun w => str_forallb piece_char w = true) pieces ->
  Forall stable_segment acc ->
  path_state pieces acc <> [] /\ Forall stable_segment (path_state pieces acc).
Proof.
  intros Hne Hp. revert acc. induction Hp as [|p ps Hpc Hps IH]; [done |].
  intros acc Hacc.
  assert (Htl : Forall stable_segment (tail acc)) by (destruct acc; [done | by inversion Hacc]).
  assert (Henc : stable_segment (pct_encode path_set p)) by by apply pct_encode_path_stable.
  assert (Hemp : stable_segment EmptyString) by done.
  assert (Hrev : forall x l, Forall stable_segment l -> stable_segment x ->
            rev (x :: l) <> [] /\ Forall stable_segment (rev (x :: l))).
  { intros x l Hl Hx. split.
    - simpl. by destruct (rev l).
    - apply List.Forall_rev. by constructor. }
  destruct ps as [|p' ps].
  - simpl. destruct (double_dot p); [by apply Hrev |].
    destruct (single_dot p); by apply Hrev.
  - change (path_state (p :: p' :: ps) acc) with
      (if double_dot p then path_state (p' :: ps) (tail acc)
       else if single_dot p then path_state (p' :: ps) acc
       else path_state (p' :: ps) (pct_encode path_set p :: acc)).
    destruct (double_dot p); [by apply IH |].
    destruct (single_dot p); apply IH; try done. by constructor.
Qed.

End UrlFacts.

Section EmbedSourceFacts.

Implicit Types (id s : string) (c : ascii).

Lemma take_until_prefix_fst (stop : ascii -> bool) a s :
  str_forallb (fun x => negb (stop x)) a = true ->
  fst (take_until stop (a +:+ s)) = a +:+ fst (take_until stop s).
Proof.
  induction a as [|x a IH]; simpl; [done |].
  intros [Hx Ha]%andb_true_iff. apply negb_true_iff in Hx. rewrite Hx.
  specialize (IH Ha). destruct (take_until stop (a +:+ s)). simpl in *.
  by rewrite IH.
Qed.

Lemma path_query_fragment_path a c r :
  one_of "?#" c = true ->
  exists q f, path_query_fragment (a +:+ String c r)
              = (fst (take_until (one_of "?#") a), q, f).
Proof.
  intros Hc. unfold path_query_fragment.
  destruct (take_until_app_fst (one_of "?#") a c r Hc) as (c' & r' & -> & _).
  destruct (match String c' r' with
            | String "?" r0 => take_until (one_of "#") r0
            | _ => (EmptyString, String c' r')
            end) as [q r4].
  by eexists _, _.
Qed.

Lemma url_clean_embed_source id autoplay :
  str_forallb id_char id = true ->
  url_clean (embed_source id autoplay) = embed_source id autoplay.
Proof.
  intros Hid. unfold url_clean, embed_source.
  change (trim_start is_c0_or_space ("https://www.youtube.com/embed/" +:+ ?x))
    with ("https://www.youtube.com/embed/" +:+ x).
  assert (Hsuffix :
    trim_end is_c0_or_space
      ("?rel=0&enablejsapi=1" +:+ (if autoplay then "&autoplay=1&mute=1" else EmptyString))
    = "?rel=0&enablejsapi=1" +:+ (if autoplay then "&autoplay=1&mute=1" else EmptyString))
    by (by destruct autoplay).
  assert (Hne :
    "?rel=0&enablejsapi=1" +:+ (if autoplay then "&autoplay=1&mute=1" else EmptyString)
    <> EmptyString) by (by destruct autoplay).
  rewrite trim_end_app_fixed;
    [| by apply trim_end_app_fixed | by apply append_nonempty_r].
  apply remove_chars_none. rewrite !str_forallb_app.
  rewrite (str_forallb_impl id_char _ id); [by destruct autoplay | | done].
  intros c Hc. by rewrite (id_char_not_tab_or_newline c Hc).
Qed.

(** Reading back the source of a built embed never throws, and its path is
    that of [/embed/] followed by the id up to a number sign. *)
Lemma URL_parse_embed_source id autoplay :
  str_forallb id_char id = true ->
  exists u, URL_parse (embed_source id autoplay) = Some u
            /\ pathname u
               = "/" +:+ join "/" (path_segments ("/embed/" +:+ fst (take_until (one_of "?#") id))).
Proof.
  intros Hid. unfold URL_parse. rewrite (url_clean_embed_source id autoplay Hid).
  unfold embed_source.
  change (take_until (fun c => negb (is_alnum c || one_of "+-." c))
            ("https://www.youtube.com/embed/" +:+ ?x))
    with ("https", String ":" ("//www.youtube.com/embed/" +:+ x)).
  cbv beta iota.
  change (is_alpha "h" && str_in (lower "https") ["http"; "https"]) with true.
  cbv beta iota.
  change (take_until (one_of "/\?#")
            (trim_start is_path_sep ("//www.youtube.com/embed/" +:+ ?x)))
    with ("www.youtube.com", "/embed/" +:+ x).
  cbv beta iota.
  change (plain_host "www.youtube.com") with true.
  cbv beta iota.
  rewrite <- append_assoc.
  change ("?rel=0&enablejsapi=1" +:+ ?x) with (String "?" ("rel=0&enablejsapi=1" +:+ x)).
  destruct (path_query_fragment_path ("/embed/" +:+ id) "?"
              ("rel=0&enablejsapi=1" +:+ (if autoplay then "&autoplay=1&mute=1" else EmptyString)))
    as (q & f & ->); [done |].
  eexists. split; [reflexivity |]. cbn [pathname].
  by rewrite (take_until_prefix_fst (one_of "?#") "/embed/" id).
Qed.

End EmbedSourceFacts.

(** ** Facts about the id pattern *)

Section PatternFacts.

Implicit Types (s r id seg url : string) (c : ascii) (k : string -> option string).

Lemma group1_valid s g : group1 s = Some g -> valid_id g = true /\ exists r, s = g +:+ r.
Proof.
  unfold group1, valid_id. destruct (take_exact 11 s) as [g'|] eqn:E; [| done].
  destruct (str_forallb id_char g') eqn:Hg; [| done]. intros [= <-].
  destruct (take_exact_Some _ _ _ E) as [-> Hr]. by rewrite Hg.
Qed.

Lemma group1_exact id : valid_id id = true -> group1 id = Some id.
Proof.
  unfold valid_id, group1. intros [Hl Hc]%andb_true_iff. apply Nat.eqb_eq in Hl.
  rewrite <- Hl, take_exact_all. by rewrite Hc.
Qed.

Lemma group1_short s : String.length s < 11 -> group1 s = None.
Proof. intros H. unfold group1. by rewrite take_exact_short. Qed.

Lemma lit_Some a s k x : lit a s k = Some x -> exists r, s = a +:+ r /\ k r = Some x.
Proof.
  unfold lit. destruct (strip_prefix a s) as [r|] eqn:E; [| done].
  intros H. exists r. split; [by apply strip_prefix_Some | done].
Qed.

Lemma lit_app a r k : lit a (a +:+ r) k = k r.
Proof. unfold lit. by rewrite strip_prefix_app. Qed.

Lemma orelse_Some a b x : orelse a b = Some x -> a = Some x \/ b = Some x.
Proof. destruct a; simpl; intros H; [by left | by right]. Qed.

Lemma dot_star_Some s k x : dot_star s k = Some x -> exists r, k r = Some x.
Proof.
  induction s as [|c s IH]; simpl.
  - intros H. by exists EmptyString.
  - destruct (is_line_terminator c); [intros H; by eexists |].
    intros [H | H]%orelse_Some; [by apply IH | by eexists].
Qed.

Lemma dot_plus_Some s k x : dot_plus s k = Some x -> exists r, k r = Some x.
Proof.
  destruct s as [|c s]; simpl; [done |].
  destruct (is_line_terminator c); [done |]. apply dot_star_Some.
Qed.

Lemma match_here_valid s id : match_here s = Some id -> valid_id id = true.
Proof.
  unfold match_here.
  intros [H | H]%orelse_Some.
  - apply lit_Some in H as (r & _ & H). by apply group1_valid in H as [? _].
  - apply lit_Some in H as (r & _ & H).
    apply orelse_Some in H as [H | H];
      [| apply orelse_Some in H as [H | H]; [| apply orelse_Some in H as [H | H]]].
    1-3: apply lit_Some in H as (r' & _ & H); by apply group1_valid in H as [? _].
    apply lit_Some in H as (r' & _ & H). apply dot_plus_Some in H as (r2 & H).
    apply lit_Some in H as (r3 & _ & H). by apply group1_valid in H as [? _].
Qed.

(** Whatever the pattern captures is an id. *)
Lemma youtube_id_valid url id : youtube_id url = Some id -> valid_id id = true.
Proof.
  induction url as [|c url IH]; cbn [youtube_id].
  - intros [H | H]%orelse_Some; [by eapply match_here_valid | done].
  - intros [H | H]%orelse_Some; [by eapply match_here_valid | by apply IH].
Qed.

Lemma lit_first_char a0 a c s k : Ascii.eqb a0 c = false -> lit (String a0 a) (String c s) k = None.
Proof. intros H. unfold lit. simpl. by rewrite H. Qed.

Lemma youtube_id_skip c s : Ascii.eqb "y" c = false -> youtube_id (String c s) = youtube_id s.
Proof.
  intros H. cbn [youtube_id]. unfold match_here. by rewrite !lit_first_char.
Qed.

Lemma no_slash_first c s :
  str_forallb (fun x => negb (is_slash x)) (String c s) = true -> Ascii.eqb "/" c = false.
Proof.
  cbn [str_forallb]. intros [Hc _]%andb_true_iff. apply negb_true_iff in Hc.
  unfold is_slash in Hc. by rewrite Ascii.eqb_sym.
Qed.

Lemma lit_slash_no_slash a s k :
  str_forallb (fun x => negb (is_slash x)) s = true -> lit (String "/" a) s k = None.
Proof.
  destruct s as [|c s]; [done |]. intros H. apply lit_first_char. by eapply no_slash_first.
Qed.

Lemma match_here_no_slash s :
  str_forallb (fun x => negb (is_slash x)) s = true -> match_here s = None.
Proof.
  intros Hs. unfold match_here.
  destruct (lit "youtu.be/" s group1) as [x|] eqn:E1.
  { apply lit_Some in E1 as (r & -> & _). rewrite str_forallb_app in Hs. done. }
  destruct (lit "youtube.com" s _) as [x|] eqn:E2; [| done].
  apply lit_Some in E2 as (r & -> & E2). rewrite str_forallb_app in Hs.
  apply andb_true_iff in Hs as [_ Hr]. by rewrite !lit_slash_no_slash in E2.
Qed.

Lemma youtube_id_no_slash s :
  str_forallb (fun x => negb (is_slash x)) s = true -> youtube_id s = None.
Proof.
  induction s as [|c s IH]; intros Hs.
  - done.
  - cbn [youtube_id]. rewrite (match_here_no_slash _ Hs). simpl in Hs.
    apply andb_true_iff in Hs as [_ Hs]. by rewrite (IH Hs).
Qed.

Lemma dot_star_no_ampersand s k :
  str_forallb (fun x => negb (Ascii.eqb "&" x)) s = true ->
  dot_star s (fun r => lit "&v=" r k) = None.
Proof.
  induction s as [|c s IH]; [done |]. cbn [str_forallb dot_star].
  intros [Hc Hs]%andb_true_iff. apply negb_true_iff in Hc.
  rewrite (IH Hs), (lit_first_char _ _ _ _ _ Hc). by destruct (is_line_terminator c).
Qed.

Lemma id_char_not_ampersand c : id_char c = true -> negb (Ascii.eqb "&" c) = true.
Proof. by_cases_on_char c. Qed.

Lemma id_char_not_slash c : id_char c = true -> negb (is_slash c) = true.
Proof. by_cases_on_char c. Qed.

(** On the watch URL the playback sync writes, the pattern captures the
    first eleven characters of what follows [v=]. *)
Lemma youtube_id_watch seg :
  str_forallb id_char seg = true ->
  youtube_id ("https://youtube.com/watch?v=" +:+ seg) = group1 seg.
Proof.
  intros Hseg.
  change ("https://youtube.com/watch?v=" +:+ seg)
    with (String "h" (String "t" (String "t" (String "p" (String "s" (String ":"
           (String "/" (String "/" ("youtube.com/watch?v=" +:+ seg))))))))).
  rewrite !youtube_id_skip by done.
  change ("youtube.com/watch?v=" +:+ seg)
    with (String "y" ("outube.com/watch?v=" +:+ seg)).
  cbn [youtube_id].
  assert (Hrest : youtube_id ("outube.com/watch?v=" +:+ seg) = None).
  { change ("outube.com/watch?v=" +:+ seg)
      with (String "o" (String "u" (String "t" (String "u" (String "b" (String "e"
             (String "." (String "c" (String "o" (String "m" (String "/" (String "w"
             (String "a" (String "t" (String "c" (String "h" (String "?" (String "v"
             (String "=" seg))))))))))))))))))).
    rewrite !youtube_id_skip by done. apply youtube_id_no_slash.
    eapply str_forallb_impl; [apply id_char_not_slash | done]. }
  rewrite Hrest. unfold match_here.
  change (String "y" ("outube.com/watch?v=" +:+ seg))
    with ("youtube.com" +:+ ("/watch?v=" +:+ seg)).
  assert (E1 : forall k, lit "youtu.be/" ("youtube.com" +:+ ("/watch?v=" +:+ seg)) k = None) by done.
  rewrite E1, lit_app. cbn [orelse].
  assert (E2 : forall k, lit "/embed/" ("/watch?v=" +:+ seg) k = None) by done.
  assert (E3 : forall k, lit "/v/" ("/watch?v=" +:+ seg) k = None) by done.
  rewrite E2, E3, lit_app. cbn [orelse].
  change ("/watch?v=" +:+ seg) with ("/watch?" +:+ String "v" (String "=" seg)).
  rewrite lit_app. cbn [dot_plus dot_star].
  change (is_line_terminator "v") with false. change (is_line_terminator "=") with false.
  cbv iota.
  rewrite dot_star_no_ampersand
    by (eapply str_forallb_impl; [apply id_char_not_ampersand | done]).
  assert (E4 : forall k, lit "&v=" (String "=" seg) k = None) by done.
  rewrite E4. by destruct (group1 seg).
Qed.

End PatternFacts.

(** ** Reading an embed back *)

Section ReadBackFacts.

Implicit Types (s id seg pre : string) (c : ascii).

Lemma split_pieces_piece_char s :
  str_forallb id_char s = true ->
  Forall (fun w => str_forallb piece_char w = true) (split is_path_sep s).
Proof.
  induction s as [|c s IH]; cbn [str_forallb split]; [by repeat constructor |].
  intros [Hc Hs]%andb_true_iff. specialize (IH Hs).
  destruct (is_path_sep c) eqn:E; [by constructor |].
  assert (Hpc : piece_char c = true) by (unfold piece_char; by rewrite Hc, E).
  destruct (split is_path_sep s) as [|w ws]; cbn [cons_head].
  - repeat constructor. cbn [str_forallb]. by rewrite Hpc.
  - inversion IH; subst. constructor; [| done]. cbn [str_forallb]. by rewrite Hpc.
Qed.

Lemma path_segments_embed pre :
  path_segments ("/embed/" +:+ pre) = path_state (split is_path_sep pre) ["embed"].
Proof.
  unfold path_segments.
  change (match "/embed/" +:+ pre with
          | String c r => if is_path_sep c then r else "/embed/" +:+ pre
          | EmptyString => "/embed/" +:+ pre
          end) with ("embed" +:+ String "/" pre).
  rewrite split_app_sep; [| done | done].
  pose proof (split_nonempty is_path_sep pre) as Hne.
  destruct (split is_path_sep pre) as [|p ps]; [done |]. reflexivity.
Qed.

Lemma last_cons_nonempty {A} (x : A) (l : list A) : l <> [] -> last (x :: l) = last l.
Proof. by destruct l. Qed.

Lemma last_Forall {A} (P : A -> Prop) (l : list A) :
  l <> [] -> Forall P l -> exists x, last l = Some x /\ P x.
Proof.
  intros Hne Hl. induction Hl as [|x l Hx Hl IH]; [done |].
  destruct l as [|y l]; [by exists x |].
  destruct IH as (z & Hz & HP); [done |]. exists z. by rewrite last_cons_nonempty.
Qed.

Lemma stable_segment_no_slash w :
  stable_segment w -> str_forallb (fun c => negb (is_slash c)) w = true.
Proof. apply str_forallb_impl, path_stable_not_slash. Qed.

Lemma last_segment_joined segs :
  segs <> [] -> Forall stable_segment segs ->
  exists seg, last (split is_slash ("/" +:+ join "/" segs)) = Some seg /\ stable_segment seg
              /\ last segs = Some seg.
Proof.
  intros Hne Hst.
  change (split is_slash ("/" +:+ join "/" segs))
    with (EmptyString :: split is_slash (join "/" segs)).
  rewrite split_join; [| done | by eapply Forall_impl; [| apply stable_segment_no_slash]].
  rewrite last_cons_nonempty by done.
  destruct (last_Forall _ _ Hne Hst) as (seg & E & H). by exists seg.
Qed.

(** The segment the playback sync reads back from a built embed: it does not
    depend on the autoplay flag, it is made of characters the parser leaves
    alone, and it is the id itself when the id is made of such characters. *)
Lemma src_last_segment_embed id :
  valid_id id = true ->
  exists seg,
    (forall autoplay, src_last_segment (mkEmbed (embed_source id autoplay)) = Some seg)
    /\ stable_segment seg
    /\ (str_forallb path_stable id = true -> seg = id).
Proof.
  unfold valid_id. intros [Hlen Hid]%andb_true_iff. apply Nat.eqb_eq in Hlen.
  set (pre := fst (take_until (one_of "?#") id)).
  assert (Hpre : str_forallb id_char pre = true) by by apply take_until_fst_keeps.
  destruct (path_state_stable (split is_path_sep pre) ["embed"]) as [Hne Hst].
  { apply split_nonempty. }
  { by apply split_pieces_piece_char. }
  { by repeat constructor. }
  destruct (last_segment_joined _ Hne Hst) as (seg & Hlast & Hseg & Hl).
  exists seg. split; [| split; [done |]].
  - intros autoplay. unfold src_last_segment. cbn [iframe_src].
    destruct (URL_parse_embed_source id autoplay Hid) as (u & -> & ->).
    by rewrite path_segments_embed.
  - intros Hstable.
    assert (Epre : pre = id).
    { apply take_until_none. eapply str_forallb_impl; [apply path_stable_not_stop | done]. }
    rewrite Epre in Hl. rewrite split_no_sep in Hl.
    2:{ eapply str_forallb_impl; [| exact Hstable].
        intros c Hc. apply path_stable_piece_char in Hc. unfold piece_char in Hc.
        by apply andb_true_iff in Hc as [_ Hc]. }
    cbn [path_state] in Hl.
    destruct (long_not_dot id) as [E1 E2]; [lia |]. rewrite E2, E1 in Hl.
    rewrite pct_encode_none in Hl
      by (eapply str_forallb_impl; [apply path_stable_not_encoded | done]).
    cbn in Hl. congruence.
Qed.

End ReadBackFacts.

(** ** The rebuild of one slide *)

Section RebuildFacts.

Implicit Types (s : Slide) (e : Embed) (id : string) (cls : list string).

Lemma createYouTubeEmbed_source url autoplay e :
  createYouTubeEmbed url autoplay = Some e ->
  exists id, youtube_id url = Some id /\ valid_id id = true
             /\ e = mkEmbed (embed_source id autoplay).
Proof.
  unfold createYouTubeEmbed. destruct (youtube_id url) as [id|] eqn:E; [| done].
  intros [= <-]. exists id. split; [done |]. split; [by eapply youtube_id_valid | done].
Qed.

Lemma createYouTubeEmbed_watch id autoplay :
  valid_id id = true ->
  createYouTubeEmbed ("https://youtube.com/watch?v=" +:+ id) autoplay
  = Some (mkEmbed (embed_source id autoplay)).
Proof.
  intros Hid. unfold createYouTubeEmbed.
  rewrite youtube_id_watch, (group1_exact id Hid); [done |].
  unfold valid_id in Hid. by apply andb_true_iff in Hid as [_ ?].
Qed.

Lemma built_embed_source e :
  built_embed e <-> exists id autoplay, valid_id id = true /\ e = mkEmbed (embed_source id autoplay).
Proof.
  split.
  - intros (url & autoplay & H). apply createYouTubeEmbed_source in H as (id & _ & Hid & ->).
    by exists id, autoplay.
  - intros (id & autoplay & Hid & ->). eexists _, autoplay. by apply createYouTubeEmbed_watch.
Qed.

Lemma stable_prefix g r : stable_segment (g +:+ r) -> stable_segment g.
Proof. unfold stable_segment. rewrite str_forallb_app. by intros [? _]%andb_true_iff. Qed.

(** What [rebuild] does to a slide holding a built embed: [seg] is the
    segment read back. *)
Lemma rebuild_video cls id autoplay0 :
  valid_id id = true ->
  exists seg,
    stable_segment seg
    /\ (str_forallb path_stable id = true -> seg = id)
    /\ forall autoplay,
         rebuild autoplay (mkSlide cls (Some (Video (mkEmbed (embed_source id autoplay0)))))
         = Some (match group1 seg with
                 | Some id1 => mkSlide cls (Some (Video (mkEmbed (embed_source id1 autoplay))))
                 | None => mkSlide cls (Some (Video (mkEmbed (embed_source id autoplay0))))
                 end).
Proof.
  intros Hid. destruct (src_last_segment_embed id Hid) as (seg & Hseg & Hst & Hsame).
  assert (Hchars : str_forallb id_char seg = true)
    by (eapply str_forallb_impl; [apply path_stable_id_char | done]).
  exists seg. split; [done |]. split; [done |].
  intros autoplay. unfold rebuild. cbn [slide_iframe s_child s_classes].
  rewrite Hseg. unfold createYouTubeEmbed. rewrite youtube_id_watch by done.
  by destruct (group1 seg).
Qed.

Lemma well_formed_slide_cases s :
  well_formed_slide s ->
  slide_iframe s = None
  \/ exists id autoplay, valid_id id = true
       /\ s = mkSlide (s_classes s) (Some (Video (mkEmbed (embed_source id autoplay)))).
Proof.
  unfold well_formed_slide, slide_iframe. destruct s as [cls [[e|p]|]]; cbn; auto.
  intros (id & autoplay & Hid & ->)%built_embed_source. right. by exists id, autoplay.
Qed.

Lemma rebuild_no_iframe autoplay s : slide_iframe s = None -> rebuild autoplay s = Some s.
Proof. intros H. unfold rebuild. by rewrite H. Qed.

Lemma well_formed_video cls id autoplay :
  valid_id id = true ->
  well_formed_slide (mkSlide cls (Some (Video (mkEmbed (embed_source id autoplay))))).
Proof. intros Hid. apply built_embed_source. by exists id, autoplay. Qed.

(** On a well-formed slide the rebuild returns, and the slide stays
    well-formed; classes are not touched. *)
Lemma rebuild_total autoplay s :
  well_formed_slide s ->
  rebuild autoplay s = Some (rebuilt autoplay s)
  /\ well_formed_slide (rebuilt autoplay s)
  /\ s_classes (rebuilt autoplay s) = s_classes s.
Proof.
  intros Hwf. unfold rebuilt.
  destruct (well_formed_slide_cases s Hwf) as [H | (id & a0 & Hid & E)].
  - by rewrite (rebuild_no_iframe _ _ H).
  - rewrite E. destruct (rebuild_video (s_classes s) id a0 Hid) as (seg & _ & _ & H).
    rewrite H. cbn [default]. split; [done |].
    destruct (group1 seg) as [id1|] eqn:E1; cbn [s_classes]; (split; [| done]).
    + apply well_formed_video. by apply group1_valid in E1 as [? _].
    + by apply well_formed_video.
Qed.

(** A second rebuild overwrites the first. *)
Lemma rebuilt_absorb a1 a2 s :
  well_formed_slide s -> rebuilt a2 (rebuilt a1 s) = rebuilt a2 s.
Proof.
  intros Hwf. unfold rebuilt.
  destruct (well_formed_slide_cases s Hwf) as [H | (id & a0 & Hid & E)].
  - by rewrite !(rebuild_no_iframe _ _ H).
  - rewrite E. destruct (rebuild_video (s_classes s) id a0 Hid) as (seg & Hst & _ & H).
    rewrite !H. cbn [default]. destruct (group1 seg) as [id1|] eqn:E1.
    + destruct (group1_valid _ _ E1) as [Hid1 [r ->]]. apply stable_prefix in Hst.
      destruct (rebuild_video (s_classes s) id1 a1 Hid1) as (seg1 & _ & Hsame & H1).
      rewrite H1, (Hsame Hst), (group1_exact id1 Hid1). done.
    + by rewrite H.
Qed.

End RebuildFacts.

(** ** Class lists *)

Section ClassListFacts.

Implicit Types (c d : string) (cl : list string).

Lemma contains_remove c cl : classList_contains (classList_remove c cl) c = false.
Proof.
  unfold classList_contains, classList_remove, str_in.
  induction cl as [|x cl IH]; simpl; [done |].
  destruct (String.eqb_spec x c) as [->|Hne]; simpl; [done |].
  rewrite IH. destruct (String.eqb_spec c x); [congruence | done].
Qed.

Lemma contains_app cl cl' c :
  classList_contains (cl ++ cl') c = classList_contains cl c || classList_contains cl' c.
Proof. unfold classList_contains, str_in. apply existsb_app. Qed.

Lemma contains_add c cl : classList_contains (classList_add c cl) c = true.
Proof.
  unfold classList_add. destruct (classList_contains cl c) eqn:E; [done |].
  rewrite contains_app. unfold classList_contains at 2, str_in. simpl.
  by rewrite String.eqb_refl, orb_true_r.
Qed.

Lemma remove_absent c cl : classList_contains cl c = false -> classList_remove c cl = cl.
Proof.
  unfold classList_contains, classList_remove, str_in.
  induction cl as [|x cl IH]; simpl; [done |].
  intros [Hx Hcl]%orb_false_iff. rewrite String.eqb_sym, Hx. simpl. by rewrite IH.
Qed.

Lemma remove_remove c cl : classList_remove c (classList_remove c cl) = classList_remove c cl.
Proof. apply remove_absent, contains_remove. Qed.

Lemma add_add c cl : classList_add c (classList_add c cl) = classList_add c cl.
Proof. unfold classList_add at 1. by rewrite contains_add. Qed.

Lemma remove_app c cl cl' :
  classList_remove c (cl ++ cl') = classList_remove c cl ++ classList_remove c cl'.
Proof. unfold classList_remove. apply List.filter_app. Qed.

Lemma remove_add c cl : classList_remove c (classList_add c cl) = classList_remove c cl.
Proof.
  unfold classList_add. destruct (classList_contains cl c); [done |].
  rewrite remove_app. unfold classList_remove at 2. simpl.
  rewrite String.eqb_refl. simpl. by rewrite app_nil_r.
Qed.

Lemma toggle_toggle c force cl :
  classList_toggle c force (classList_toggle c force cl) = classList_toggle c force cl.
Proof. destruct force; simpl; [apply add_add | apply remove_remove]. Qed.

Lemma contains_toggle c force cl : classList_contains (classList_toggle c force cl) c = force.
Proof. destruct force; simpl; [apply contains_add | apply contains_remove]. Qed.

End ClassListFacts.

(** ** One transition on the whole block *)

Section TransitionFacts.

Implicit Types (b : Block) (s : Slide) (l : list Slide) (k i : nat).

Lemma normalize_range n t : (0 < n)%Z -> (0 <= normalize n t < n)%Z.
Proof. intros Hn. unfold normalize. repeat case_match; lia. Qed.

(** Between [-1] and [length] the clamp is the modular index. *)
Lemma normalize_modular n t :
  (0 < n)%Z -> (-1 <= t <= n)%Z -> normalize n t = modular_index n t.
Proof.
  intros Hn Ht. unfold normalize, modular_index.
  destruct (Z.ltb_spec t 0).
  - replace t with (-1)%Z by lia.
    destruct (Z.eq_dec n 1%Z) as [->|Hne1]; [done |].
    change (-1)%Z with (- (1))%Z. rewrite Z.rem_opp_l by lia.
    rewrite (Z.rem_small 1 n) by lia. rewrite Z.rem_small; lia.
  - destruct (Z.geb_spec t n).
    + replace t with n by lia. rewrite Z.rem_same by lia.
      rewrite Z.add_0_l. by rewrite Z.rem_same by lia.
    + rewrite (Z.rem_small t n) by lia.
      rewrite Z.rem_mod_nonneg by lia.
      replace (t + n)%Z with (t + 1 * n)%Z by lia.
      rewrite Z.mod_add by lia. rewrite Z.mod_small; lia.
Qed.

Lemma well_formed_deactivate s : well_formed_slide s -> well_formed_slide (deactivate s).
Proof. done. Qed.

Lemma well_formed_activate s : well_formed_slide s -> well_formed_slide (activate s).
Proof. done. Qed.

Lemma well_formed_rebuilt autoplay s : well_formed_slide s -> well_formed_slide (rebuilt autoplay s).
Proof. intros H. by apply rebuild_total. Qed.

Lemma well_formed_play s : well_formed_slide s -> well_formed_slide (play s).
Proof. intros H. unfold play. case_match; [by apply well_formed_rebuilt | done]. Qed.

Lemma well_formed_settle k i s : well_formed_slide s -> well_formed_slide (settle k i s).
Proof.
  intros H. unfold settle. case_match.
  - by apply well_formed_play, well_formed_rebuilt.
  - by apply well_formed_rebuilt.
Qed.

Lemma mapM_rebuild autoplay l :
  Forall well_formed_slide l -> mapM (rebuild autoplay) l = Some (rebuilt autoplay <$> l).
Proof.
  induction 1 as [|s l Hs Hl IH]; [done |]. cbn [mapM].
  destruct (rebuild_total autoplay s Hs) as [-> _]. by rewrite IH.
Qed.

(** The slides after one run, slide by slide. *)
Lemma settle_slides k l s :
  l !! k = Some s ->
  <[k := play (rebuilt false (activate (deactivate s)))]>
    (rebuilt false <$> <[k := activate (deactivate s)]> (deactivate <$> l))
  = imap (settle k) l.
Proof.
  intros Hk. apply list_eq. intros i. rewrite list_lookup_imap.
  pose proof (lookup_lt_Some _ _ _ Hk) as Hlt. unfold settle.
  destruct (decide (i = k)) as [->|Hne].
  - rewrite list_lookup_insert_eq
      by (by rewrite length_fmap, length_insert, length_fmap).
    by rewrite Hk, Nat.eqb_refl.
  - rewrite list_lookup_insert_ne by done.
    rewrite list_lookup_fmap, list_lookup_insert_ne by done.
    rewrite list_lookup_fmap. apply Nat.eqb_neq in Hne. rewrite Hne.
    by destruct (l !! i).
Qed.

(** [scrollToSlide] returns on every well-formed block with a slide, and
    what it returns is [settled] at the normalized index. *)
Lemma scrollToSlide_settled b t :
  well_formed b -> slides b <> [] ->
  scrollToSlide b t
  = Some (settled (Z.to_nat (normalize (Z.of_nat (length (slides b))) t)) b).
Proof.
  intros Hwf Hne. unfold scrollToSlide.
  assert (Hlen : (0 < Z.of_nat (length (slides b)))%Z)
    by (destruct (slides b); [done | simpl; lia]).
  pose proof (normalize_range _ t Hlen) as Hr.
  set (idx := normalize (Z.of_nat (length (slides b))) t) in *.
  destruct (lookup_lt_is_Some_2 (slides b) (Z.to_nat idx)) as [s Hs]; [lia |].
  unfold at_index at 1. destruct (Z.ltb_spec idx 0) as [|_]; [lia |].
  rewrite list_lookup_fmap, Hs. cbn [fmap option_fmap option_map].
  unfold handleVideoPlayback. cbn [slides navigation indicators thumbnails currentSlide].
  rewrite mapM_rebuild.
  2:{ apply Forall_insert; [| by apply well_formed_activate, well_formed_deactivate,
                                (Forall_lookup_1 _ _ _ _ Hwf Hs)].
      apply Forall_fmap. eapply Forall_impl; [exact Hwf | done]. }
  unfold at_index. destruct (Z.ltb_spec idx 0) as [|_]; [lia |].
  rewrite list_lookup_fmap, list_lookup_insert_eq
    by (rewrite length_fmap; by eapply lookup_lt_Some).
  cbn [fmap option_fmap option_map].
  assert (Hwf' : well_formed_slide (rebuilt false (activate (deactivate s)))).
  { apply well_formed_rebuilt, well_formed_activate, well_formed_deactivate.
    by apply (Forall_lookup_1 _ _ _ _ Hwf Hs). }
  pose proof (settle_slides _ _ _ Hs) as Hsl. unfold play in Hsl.
  unfold settled. rewrite Z2Nat.id by lia.
  destruct (classList_contains (s_classes (rebuilt false (activate (deactivate s)))) "video-slide").
  - destruct (rebuild_total true _ Hwf') as [-> _].
    unfold updateThumbnails, updateIndicators.
    cbn [slides navigation indicators thumbnails currentSlide]. by rewrite Hsl.
  - unfold updateThumbnails, updateIndicators.
    cbn [slides navigation indicators thumbnails currentSlide].
    rewrite <- Hsl.
    rewrite (list_insert_id (rebuilt false <$> _) _ (rebuilt false (activate (deactivate s))));
      [done |].
    rewrite list_lookup_fmap, list_lookup_insert_eq
      by (rewrite length_fmap; by eapply lookup_lt_Some). done.
Qed.

End TransitionFacts.

Section SettledFacts.

Implicit Types (b : Block) (s : Slide) (l : list Slide) (k i j : nat).

Lemma rebuilt_s_classes autoplay s : s_classes (rebuilt autoplay s) = s_classes s.
Proof.
  unfold rebuilt, rebuild. destruct (slide_iframe s); [| done].
  destruct (src_last_segment _); [| done]. by destruct (createYouTubeEmbed _ _).
Qed.

Lemma play_s_classes s : s_classes (play s) = s_classes s.
Proof. unfold play. case_match; [apply rebuilt_s_classes | done]. Qed.

Lemma settle_s_classes k i s :
  s_classes (settle k i s)
  = if i =? k then classList_add "active" (classList_remove "active" (s_classes s))
    else classList_remove "active" (s_classes s).
Proof.
  unfold settle. case_match; [by rewrite play_s_classes, rebuilt_s_classes |].
  by rewrite rebuilt_s_classes.
Qed.

Lemma settle_is_active k i s : is_active (s_classes (settle k i s)) = (i =? k).
Proof.
  rewrite settle_s_classes. unfold is_active.
  case_match; [apply contains_add | apply contains_remove].
Qed.

Lemma positions_single {A} (p : A -> bool) (l : list A) k j :
  k < length l ->
  (forall i x, l !! i = Some x -> p x = (i =? k)) ->
  positions p j l = [j + k].
Proof.
  revert k j. induction l as [|x l IH]; intros k j Hk Hp; [simpl in Hk; lia |].
  cbn [positions]. rewrite (Hp 0 x eq_refl). destruct k as [|k]; cbn [Nat.eqb].
  - rewrite Nat.add_0_r. f_equal. clear IH Hk.
    assert (Hnone : forall i y, l !! i = Some y -> p y = false)
      by (intros i y Hy; apply (Hp (S i) y Hy)).
    clear Hp. revert j. induction l as [|y l IH]; intros j; [done |].
    cbn [positions]. rewrite (Hnone 0 y eq_refl). apply IH.
    intros i z Hz. apply (Hnone (S i) z Hz).
  - rewrite (IH k (S j)); [f_equal; lia | simpl in Hk; lia |].
    intros i y Hy. apply (Hp (S i) y Hy).
Qed.

(** After a run that settles on [k], the slide at [k] is the one active
    slide. *)
Lemma active_slides_settled k b : k < length (slides b) -> active_slides (settled k b) = [k].
Proof.
  intros Hk. unfold active_slides, settled. cbn [slides].
  rewrite (positions_single _ _ k 0); [done | by rewrite length_imap |].
  intros i x. rewrite list_lookup_imap. destruct (slides b !! i) as [s|]; [| done].
  intros [= <-]. apply settle_is_active.
Qed.

Lemma well_formed_settled k b : well_formed b -> well_formed (settled k b).
Proof.
  unfold well_formed, settled. cbn [slides]. intros Hwf.
  apply Forall_lookup_2. intros i x. rewrite list_lookup_imap.
  destruct (slides b !! i) as [s|] eqn:E; [| done]. intros [= <-].
  apply well_formed_settle. by eapply Forall_lookup_1.
Qed.

Lemma slide_eta s : mkSlide (s_classes s) (s_child s) = s.
Proof. by destruct s. Qed.

Lemma deactivate_fixed s :
  classList_contains (s_classes s) "active" = false -> deactivate s = s.
Proof. intros H. unfold deactivate. rewrite remove_absent by done. apply slide_eta. Qed.

Lemma reactivate_fixed cls s :
  s_classes s = classList_add "active" (classList_remove "active" cls) ->
  activate (deactivate s) = s.
Proof.
  intros H. unfold activate, deactivate. cbn [s_classes s_child].
  rewrite H, remove_add, remove_remove, <- H. apply slide_eta.
Qed.

Lemma settle_settle k i s : well_formed_slide s -> settle k i (settle k i s) = settle k i s.
Proof.
  intros Hwf. unfold settle. destruct (i =? k).
  - set (a := activate (deactivate s)). set (y := rebuilt false a).
    assert (Ha : well_formed_slide a) by done.
    assert (Hy : well_formed_slide y) by by apply well_formed_rebuilt.
    rewrite (reactivate_fixed (s_classes s) (play y))
      by (by rewrite play_s_classes; unfold y; rewrite rebuilt_s_classes).
    assert (E : rebuilt false (play y) = y).
    { unfold play. case_match.
      - rewrite rebuilt_absorb by done. unfold y. by rewrite rebuilt_absorb.
      - unfold y. by rewrite rebuilt_absorb. }
    by rewrite E.
  - set (d := deactivate s). assert (Hd : well_formed_slide d) by done.
    rewrite (deactivate_fixed (rebuilt false d)).
    + by rewrite rebuilt_absorb.
    + rewrite rebuilt_s_classes. apply contains_remove.
Qed.

Lemma imap_imap_fixed {A} (f : nat -> A -> A) (P : A -> Prop) (l : list A) :
  Forall P l -> (forall i x, P x -> f i (f i x) = f i x) -> imap f (imap f l) = imap f l.
Proof.
  intros Hl Hf. apply list_eq. intros i. rewrite !list_lookup_imap.
  destruct (l !! i) as [x|] eqn:E; [| done]. cbn. f_equal. apply Hf.
  by eapply Forall_lookup_1.
Qed.

(** Settling twice on the same index changes nothing more. *)
Lemma settled_settled k b : well_formed b -> settled k (settled k b) = settled k b.
Proof.
  intros Hwf. unfold settled, updateThumbnails, updateIndicators.
  cbn [slides navigation indicators thumbnails currentSlide]. f_equal.
  - apply (imap_imap_fixed _ well_formed_slide); [done |]. intros i x. apply settle_settle.
  - apply (imap_imap_fixed _ (fun _ => True)); [by apply Forall_true |].
    intros i x _. cbn. by rewrite toggle_toggle.
  - apply (imap_imap_fixed _ (fun _ => True)); [by apply Forall_true |].
    intros i x _. cbn. by rewrite toggle_toggle.
Qed.

End SettledFacts.

(** ** Decoration *)

Section DecorateFacts.

Implicit Types (rows : list Row) (row : Row) (index : nat).

Lemma well_formed_decorate_slide index row : well_formed_slide (fst (decorate_slide index row)).
Proof.
  unfold decorate_slide. destruct (row_link row) as [[i href]|].
  - destruct (createYouTubeEmbed href false) as [e|] eqn:E; [| done].
    cbn. by exists href, false.
  - by destruct (row_img row) as [[src alt]|].
Qed.

Lemma slides_decorate rows : slides (decorate rows) = fst <$> imap decorate_slide rows.
Proof. unfold decorate. by case_match. Qed.

Lemma length_slides_decorate rows : length (slides (decorate rows)) = length rows.
Proof. by rewrite slides_decorate, length_fmap, length_imap. Qed.

(** Decoration yields a well-formed block. *)
Lemma well_formed_decorate rows : well_formed (decorate rows).
Proof.
  unfold well_formed. rewrite slides_decorate. apply Forall_fmap, Forall_lookup_2.
  intros i x. rewrite list_lookup_imap. destruct (rows !! i); [| done].
  intros [= <-]. apply well_formed_decorate_slide.
Qed.

(** Transitions keep a block well-formed and keep its slides in number. *)
Lemma scrollToSlide_well_formed b t b' :
  well_formed b -> scrollToSlide b t = Some b' ->
  well_formed b' /\ length (slides b') = length (slides b).
Proof.
  intros Hwf. destruct (slides b) as [|s l] eqn:E.
  - unfold scrollToSlide. rewrite E. cbn. unfold at_index, normalize. cbn.
    repeat case_match; done.
  - rewrite scrollToSlide_settled by (done || by rewrite E). intros [= <-].
    split; [by apply well_formed_settled |]. unfold settled. cbn [slides].
    by rewrite length_imap, E.
Qed.

Lemma row_img_image pre src alt post :
  is_Some (row_img (pre ++ Image src alt :: post)).
Proof.
  unfold row_img. generalize 0.
  induction pre as [|n pre IH]; intros j; cbn; [done |].
  destruct n; [apply IH | done | apply IH].
Qed.

Lemma row_img_after_decorate index row :
  is_Some (row_img (snd (decorate_slide index row))) <-> shows_image row = true.
Proof.
  unfold decorate_slide, shows_image, createYouTubePreview, createYouTubeEmbed.
  destruct (row_link row) as [[i href]|].
  - destruct (youtube_id href) as [id|]; cbn [snd].
    + unfold replace_link.
      split; [intros _; case_match; [done | by apply bool_decide_eq_true] |].
      intros _.
      match goal with
      | |- is_Some (row_img (?l ++ [?a; Image ?s ?t; ?c] ++ ?r)) =>
          replace (l ++ [a; Image s t; c] ++ r) with ((l ++ [a]) ++ Image s t :: c :: r)
            by (by rewrite <- app_assoc)
      end.
      apply row_img_image.
    + destruct (row_img row); [split; [done | by eexists] |].
      split; [by intros [? ?] |].
      intros H. apply bool_decide_eq_true in H. by destruct H.
  - destruct (row_img row) as [[src alt]|] eqn:E; cbn [snd]; rewrite E.
    + split; [done | by eexists].
    + split; [by intros [? ?] | done].
Qed.

End DecorateFacts.

Section ThumbnailFacts.

Lemma length_omap_imap {A B} (p : A -> bool) (f : nat -> A -> option B) (g : nat -> A -> A)
    (l : list A) :
  (forall i j x, is_Some (f i (g j x)) <-> p x = true) ->
  length (omap id (imap f (imap g l))) = length (List.filter p l).
Proof.
  revert f g. induction l as [|x l IH]; intros f g H; [done |].
  pose proof (H 0 0 x) as H0.
  pose proof (IH (f ∘ S) (g ∘ S) (fun i j z => H (S i) (S j) z)) as IH'.
  simpl. destruct (f 0 (g 0 x)) eqn:E; destruct (p x) eqn:Ep; simpl.
  - f_equal. exact IH'.
  - exfalso. destruct H0 as [H0 _]. by specialize (H0 (ltac:(eexists; reflexivity))).
  - exfalso. destruct H0 as [_ H0]. by destruct (H0 eq_refl).
  - exact IH'.
Qed.

Lemma length_filter_le {A} (p : A -> bool) (l : list A) : length (List.filter p l) <= length l.
Proof. induction l as [|x l IH]; simpl; [done |]. destruct (p x); simpl; lia. Qed.

Lemma length_createThumbnails rows :
  length (createThumbnails (snd <$> imap decorate_slide rows))
  = length (List.filter shows_image rows).
Proof.
  unfold createThumbnails. rewrite fmap_imap.
  apply (length_omap_imap shows_image). intros i j row. cbn.
  rewrite <- (row_img_after_decorate j row).
  destruct (row_img (snd (decorate_slide j row))) as [[src alt]|]; [| by split; intros [? ?]].
  split; intros _; by eexists.
Qed.

Lemma indicator_thumbnail_counts_aux rows :
  1 < length rows ->
  length (slides (decorate rows)) = length rows
  /\ length (indicators (decorate rows)) = length rows
  /\ length (thumbnails (decorate rows)) = length (List.filter shows_image rows).
Proof.
  intros Hlen. split; [apply length_slides_decorate |].
  unfold decorate. apply Nat.ltb_lt in Hlen. rewrite Hlen.
  cbn [indicators thumbnails]. rewrite length_createThumbnails.
  split; [unfold createIndicators; by rewrite length_fmap, length_seq | done].
Qed.

Lemma filter_all {A} (p : A -> bool) (l : list A) :
  forallb p l = true -> List.filter p l = l.
Proof.
  induction l as [|x l IH]; [done |]. cbn.
  intros [-> Hl]%andb_true_iff. by rewrite IH.
Qed.

End ThumbnailFacts.

(** ** Reachable states and the navigation buttons *)

Section ReachableFacts.

Implicit Types (b : Block) (rows : list Row) (ts : list Z).

Lemma goToSlides_from b ts :
  well_formed b -> slides b <> [] ->
  exists b', goToSlides b ts = Some b' /\ well_formed b'
             /\ length (slides b') = length (slides b).
Proof.
  revert b. induction ts as [|t ts IH]; intros b Hwf Hne; [by exists b |].
  cbn [goToSlides]. rewrite scrollToSlide_settled by done.
  set (b1 := settled _ b).
  assert (Hlen : length (slides b1) = length (slides b))
    by (unfold b1, settled; cbn [slides]; by rewrite length_imap).
  destruct (IH b1) as (b' & H1 & H2 & H3).
  - by apply well_formed_settled.
  - intros E. rewrite E in Hlen. by destruct (slides b).
  - exists b'. by rewrite H3.
Qed.

(** From decoration, every sequence of transitions runs through, and every
    state on the way is well-formed with the slides decoration built. *)
Lemma goToSlides_reachable rows ts :
  rows <> [] ->
  exists b, goToSlides (decorate rows) ts = Some b /\ well_formed b
            /\ length (slides b) = length rows.
Proof.
  intros Hne. destruct (goToSlides_from (decorate rows) ts) as (b & H1 & H2 & H3).
  - apply well_formed_decorate.
  - intros E. apply (f_equal length) in E. rewrite length_slides_decorate in E.
    by destruct rows.
  - exists b. by rewrite H3, length_slides_decorate.
Qed.

Lemma parseInt_String_of_number z : parseInt (String_of_number z) = Some z.
Proof.
  unfold parseInt, String_of_number. rewrite DecimalString.NilZero.isi.
  - cbn. by rewrite DecimalZ.of_to.
  - destruct z; [done | | done]. cbn. intros [= H]. by apply DecimalPos.Unsigned.to_uint_nonnil in H.
  - destruct z; [done | done |]. cbn. intros [= H]. by apply DecimalPos.Unsigned.to_uint_nonnil in H.
Qed.

(** X8: the prev and next buttons pass the stored index minus or plus one,
    so a target between [-1] and [length]: there the index the code settles
    on is the modular one, the slide before or after with wrap-around at
    both ends. *)
Lemma navigation_clicks_modular b (k : Z) :
  well_formed b -> slides b <> [] ->
  currentSlide b = Some (String_of_number k) ->
  (0 <= k < Z.of_nat (length (slides b)))%Z ->
  let len := Z.of_nat (length (slides b)) in
  (exists b1, prev_click b = Some b1
              /\ active_slides b1 = [Z.to_nat (modular_index len (k - 1))])
  /\ (exists b2, next_click b = Some b2
                 /\ active_slides b2 = [Z.to_nat (modular_index len (k + 1))]).
Proof.
  intros Hwf Hne Hcur Hk len. unfold prev_click, next_click. rewrite Hcur.
  cbn [mbind option_bind]. rewrite parseInt_String_of_number.
  assert (Hstep : forall t, (-1 <= t <= len)%Z ->
            exists b', scrollToSlide b t = Some b'
                       /\ active_slides b' = [Z.to_nat (modular_index len t)]).
  { intros t Ht. eexists. split; [by apply scrollToSlide_settled |].
    fold len. rewrite <- normalize_modular by lia.
    apply active_slides_settled. pose proof (normalize_range len t). lia. }
  split; apply Hstep; lia.
Qed.

End ReachableFacts.

(** ** Markers on aligned blocks *)

Section MarkerFacts.

Implicit Types (b : Block) (rows : list Row) (k : nat).

Lemma targets_positions {A} (act : A -> bool) (tg : A -> nat) (l : list A) j :
  (forall i x, l !! i = Some x -> tg x = j + i) ->
  tg <$> List.filter act l = positions act j l.
Proof.
  revert j. induction l as [|x l IH]; intros j H; [done |].
  cbn [List.filter positions].
  assert (IH' : tg <$> List.filter act l = positions act (S j) l).
  { apply IH. intros i y Hy. rewrite (H (S i) y Hy). lia. }
  destruct (act x); [| done]. cbn. rewrite IH', (H 0 x eq_refl). f_equal. lia.
Qed.

Lemma targets_single {A} (act : A -> bool) (tg : A -> nat) (l : list A) k :
  k < length l ->
  (forall i x, l !! i = Some x -> act x = (i =? k) /\ tg x = i) ->
  tg <$> List.filter act l = [k].
Proof.
  intros Hk H. rewrite (targets_positions act tg l 0) by (intros i x Hx; by apply H).
  rewrite (positions_single act l k 0); [done | done |]. intros i x Hx. by apply H.
Qed.

Lemma same_index_nat i k : same_index i (Z.of_nat k) = (i =? k).
Proof.
  unfold same_index. destruct (Nat.eqb_spec i k) as [->|Hne]; [apply Z.eqb_refl |].
  apply Z.eqb_neq. lia.
Qed.

(** On an aligned block a transition leaves the three markers on the same
    index, and the block aligned. *)
Lemma settled_markers_agree k b :
  aligned b -> k < length (slides b) ->
  active_slides (settled k b) = [k]
  /\ active_indicator_targets (settled k b) = [k]
  /\ active_thumbnail_targets (settled k b) = [k]
  /\ aligned (settled k b).
Proof.
  intros (Hli & Hlt & Hi & Ht) Hk. split; [by apply active_slides_settled |].
  unfold active_indicator_targets, active_thumbnail_targets, aligned, settled,
    updateThumbnails, updateIndicators.
  cbn [slides indicators thumbnails]. rewrite !length_imap.
  split; [| split; [| split; [done | split; [done | split]]]].
  - apply targets_single; [rewrite length_imap; lia |].
    intros i x. rewrite list_lookup_imap. destruct (indicators b !! i) as [y|] eqn:E; [| done].
    intros [= <-]. cbn [i_classes i_target t_classes t_target]. unfold is_active. rewrite contains_toggle, same_index_nat.
    split; [done | by apply Hi].
  - apply targets_single; [rewrite length_imap; lia |].
    intros i x. rewrite list_lookup_imap. destruct (thumbnails b !! i) as [y|] eqn:E; [| done].
    intros [= <-]. cbn [i_classes i_target t_classes t_target]. unfold is_active. rewrite contains_toggle, same_index_nat.
    split; [done | by apply Ht].
  - intros i x. rewrite list_lookup_imap. destruct (indicators b !! i) as [y|] eqn:E; [| done].
    intros [= <-]. cbn [i_target]. by apply Hi.
  - intros i x. rewrite list_lookup_imap. destruct (thumbnails b !! i) as [y|] eqn:E; [| done].
    intros [= <-]. cbn [t_target]. by apply Ht.
Qed.

Lemma omap_imap_total {A B} (g : nat -> A -> option B) (h : nat -> A -> B) (l : list A) :
  (forall i x, l !! i = Some x -> g i x = Some (h i x)) ->
  omap id (imap g l) = imap h l.
Proof.
  revert g h. induction l as [|x l IH]; intros g h H; [done |].
  cbn. rewrite (H 0 x eq_refl). cbn. f_equal. apply IH.
  intros i y Hy. apply (H (S i) y Hy).
Qed.

(** When every row holds an image or a link that parses, decoration yields
    an aligned block. *)
Lemma aligned_decorate rows :
  1 < length rows -> forallb shows_image rows = true -> aligned (decorate rows).
Proof.
  intros Hlen Hall.
  destruct (indicator_thumbnail_counts_aux rows Hlen) as (Hs & Hi & Ht).
  unfold aligned. rewrite Hs, Hi. split; [done |]. split.
  { by rewrite Ht, filter_all. }
  unfold decorate. apply Nat.ltb_lt in Hlen. rewrite Hlen. cbn [indicators thumbnails].
  split.
  - intros i x. unfold createIndicators. rewrite list_lookup_fmap.
    destruct (seq 0 (length rows) !! i) as [j|] eqn:E; [| done].
    apply lookup_seq in E as [-> _]. by intros [= <-].
  - unfold createThumbnails. rewrite fmap_imap.
    rewrite (omap_imap_total _
               (fun index row =>
                  mkThumbnail
                    (if index =? 0 then classList_add "active" ["image-carousel-thumbnail"]
                     else ["image-carousel-thumbnail"])
                    (slide_label index) (String_of_bool (index =? 0))
                    (createOptimizedPicture
                       (default EmptyString (fst <$> row_img row)) EmptyString false ["160"])
                    index)).
    + intros i x. rewrite list_lookup_imap. destruct (imap _ rows !! i); [| done].
      by intros [= <-].
    + intros i x. rewrite list_lookup_imap.
      destruct (rows !! i) as [row|] eqn:E; [| done]. intros [= <-].
      assert (Hrow : shows_image row = true).
      { rewrite forallb_forall in Hall. apply Hall, list_elem_of_In.
        by eapply list_elem_of_lookup_2. }
      apply (row_img_after_decorate i row) in Hrow as [[src alt] Himg].
      cbn. by rewrite Himg.
Qed.

End MarkerFacts.

(** ** The carousel: the claims *)

(** C1, as the spec writes it, fails: from the three-slide carousel,
    [goToSlide(-2)] activates slide 2, where the modular formula gives 1. *)
Lemma goToSlide_modular_counterexample :
  exists b', scrollToSlide (decorate three_slides) (-2) = Some b'
             /\ active_slides b' = [2]
             /\ Z.to_nat (modular_index 3 (-2)) = 1
             /\ active_slides b' <> [Z.to_nat (modular_index 3 (-2))].
Proof. eexists. split; [vm_compute; reflexivity |]. by vm_compute. Qed.

(** C1, amended: on every carousel with at least one slide, [goToSlide]
    returns for every integer target and leaves exactly one slide active;
    its index is [length - 1] for a negative target, [0] for a target of
    [length] or more, and the target otherwise.  That index is the modular
    one whenever the target lies between [-1] and [length], which is all
    the prev and next buttons ever pass. *)
Theorem goToSlide_one_active (b : Block) (targetIndex : Z) :
  well_formed b -> slides b <> [] ->
  let len := Z.of_nat (length (slides b)) in
  exists b', scrollToSlide b targetIndex = Some b'
             /\ active_slides b' = [Z.to_nat (normalize len targetIndex)]
             /\ normalize len targetIndex
                = (if (targetIndex <? 0)%Z then len - 1
                   else if (targetIndex >=? len)%Z then 0 else targetIndex)%Z
             /\ ((-1 <= targetIndex <= len)%Z ->
                 normalize len targetIndex = modular_index len targetIndex).
Proof.
  intros Hwf Hne len. exists (settled (Z.to_nat (normalize len targetIndex)) b).
  assert (Hlen : (0 < len)%Z) by (unfold len; destruct (slides b); [done | simpl; lia]).
  pose proof (normalize_range len targetIndex Hlen) as Hr.
  split; [by apply scrollToSlide_settled |].
  split; [apply active_slides_settled; lia |]. split; [done |].
  intros Ht. by apply normalize_modular.
Qed.

(** The theorem at [goToSlide(-1)] on the three slides. *)
Lemma goToSlide_one_active_witness :
  well_formed (decorate three_slides) /\ slides (decorate three_slides) <> []
  /\ exists b', scrollToSlide (decorate three_slides) (-1) = Some b'
                /\ active_slides b' = [2]
                /\ normalize 3 (-1) = modular_index 3 (-1).
Proof.
  assert (Hwf : well_formed (decorate three_slides)).
  { repeat constructor. by exists "https://www.youtube.com/watch?v=XYZ12345678", false. }
  split; [exact Hwf |]. split; [done |].
  destruct (goToSlide_one_active (decorate three_slides) (-1) Hwf) as (b' & H1 & H2 & _ & H4);
    [done |].
  exists b'. split; [exact H1 |]. split; [exact H2 |]. apply H4. by vm_compute.
Defined.

(** C3, as the spec writes it, fails: with a link in which the pattern finds
    no id and a row without an image there are three slides, three indicators and one
    thumbnail. *)
Lemma thumbnail_count_counterexample :
  length (slides (decorate broken_slides)) = 3
  /\ length (indicators (decorate broken_slides)) = 3
  /\ length (thumbnails (decorate broken_slides)) = 1.
Proof. by vm_compute. Qed.

(** C3, amended: for more than one slide, whatever fails slide by slide,
    there are as many indicators as slides, and as many thumbnails as rows
    for which [shows_image] holds: rows that hold an image, or whose first
    link with [youtube.com] or [youtu.be] in its [href] attribute -- the
    only link [decorate] looks at -- has an [href] in which the pattern
    finds an id.  That is at most as many as slides, and exactly as many
    when every row is such a row. *)
Theorem indicator_thumbnail_counts (rows : list Row) :
  1 < length rows ->
  length (slides (decorate rows)) = length rows
  /\ length (indicators (decorate rows)) = length rows
  /\ length (thumbnails (decorate rows)) = length (List.filter shows_image rows)
  /\ length (thumbnails (decorate rows)) <= length rows
  /\ (forallb shows_image rows = true -> length (thumbnails (decorate rows)) = length rows).
Proof.
  intros Hlen. destruct (indicator_thumbnail_counts_aux rows Hlen) as (Hs & Hi & Ht).
  split; [done |]. split; [done |]. split; [done |]. rewrite Ht.
  split; [apply length_filter_le |]. intros Hall. by rewrite filter_all.
Qed.

(** The theorem at the carousel of the counterexample. *)
Lemma indicator_thumbnail_counts_witness :
  1 < length broken_slides
  /\ length (indicators (decorate broken_slides)) = 3
  /\ length (thumbnails (decorate broken_slides)) = length (List.filter shows_image broken_slides).
Proof.
  split; [vm_compute; lia |].
  destruct (indicator_thumbnail_counts broken_slides) as (_ & H2 & H3 & _); [vm_compute; lia |].
  split; [exact H2 | exact H3].
Defined.

(** C4 fails on the code.  With a middle row that holds no image the
    thumbnail strip has two entries; after [goToSlide(1)] slide 1 is active
    and the indicator for slide 1 is marked, but the marked thumbnail is the
    one that scrolls to slide 2.  And right after decoration no indicator
    carries the active class at all, while the first thumbnail does. *)
Theorem thumbnail_marker_off_target :
  (active_slides (decorate gap_slides) = [0]
   /\ active_indicator_targets (decorate gap_slides) = []
   /\ active_thumbnail_targets (decorate gap_slides) = [0])
  /\ exists b', scrollToSlide (decorate gap_slides) 1 = Some b'
                /\ active_slides b' = [1]
                /\ active_indicator_targets b' = [1]
                /\ active_thumbnail_targets b' = [2].
Proof. split; [by vm_compute |]. eexists. split; [vm_compute; reflexivity |]. by vm_compute. Qed.

(** C5, as the spec writes it, fails: after [goToSlide(-1)] and
    [goToSlide(4)] the active slide is slide 0, not slide 1, and the embed of
    slide 1 is the one that does not autoplay. *)
Lemma scenario_overflow_counterexample :
  exists b1 b2, scrollToSlide (decorate three_slides) (-1) = Some b1
                /\ scrollToSlide b1 4 = Some b2
                /\ active_slides b2 = [0]
                /\ active_slides b2 <> [1]
                /\ is_autoplay <$> embed_src b2 1 = Some false.
Proof.
  eexists _, _. split; [vm_compute; reflexivity |]. split; [vm_compute; reflexivity |].
  by vm_compute.
Qed.

(** C5, amended: from the three slides, [goToSlide(-1)] activates slide 2;
    [goToSlide(4)] then activates slide 0, with the embed of slide 1 rebuilt
    for the same id without autoplay; it takes [goToSlide(1)] to activate
    slide 1, whose embed is then the autoplaying one.  Slides 0 and 2 never
    hold a video embed. *)
Theorem scenario_three_slides :
  exists b1 b2 b3,
    scrollToSlide (decorate three_slides) (-1) = Some b1
    /\ active_slides b1 = [2]
    /\ scrollToSlide b1 4 = Some b2
    /\ active_slides b2 = [0]
    /\ embed_src b2 1 = Some "https://www.youtube.com/embed/XYZ12345678?rel=0&enablejsapi=1"
    /\ embed_src b2 0 = None /\ embed_src b2 2 = None
    /\ scrollToSlide b2 1 = Some b3
    /\ active_slides b3 = [1]
    /\ embed_src b3 1
       = Some "https://www.youtube.com/embed/XYZ12345678?rel=0&enablejsapi=1&autoplay=1&mute=1"
    /\ is_autoplay <$> embed_src b3 1 = Some true
    /\ embed_src b3 0 = None /\ embed_src b3 2 = None.
Proof.
  eexists _, _, _.
  split; [vm_compute; reflexivity |]. split; [by vm_compute |].
  split; [vm_compute; reflexivity |]. do 4 (split; [by vm_compute |]).
  split; [vm_compute; reflexivity |]. by vm_compute.
Qed.

(** C6: on every carousel state, two calls of [goToSlide] in a row whose
    targets normalize to the same index leave the block -- classes of the
    slides, indicators and thumbnails with their markers, the stored index,
    every embed with its source -- as the first call left it. *)
Theorem goToSlide_idempotent (b : Block) (t1 t2 : Z) :
  well_formed b -> slides b <> [] ->
  normalize (Z.of_nat (length (slides b))) t1 = normalize (Z.of_nat (length (slides b))) t2 ->
  exists b1, scrollToSlide b t1 = Some b1 /\ scrollToSlide b1 t2 = Some b1.
Proof.
  intros Hwf Hne Hsame. eexists. split; [by apply scrollToSlide_settled |].
  assert (Hlen : forall k, length (slides (settled k b)) = length (slides b))
    by (intros k; unfold settled; cbn [slides]; by rewrite length_imap).
  rewrite scrollToSlide_settled.
  - by rewrite Hlen, <- Hsame, settled_settled.
  - by apply well_formed_settled.
  - intros E. apply (f_equal length) in E. rewrite Hlen in E. by destruct (slides b).
Qed.

(** The theorem at [goToSlide(4)] then [goToSlide(0)] on the three slides. *)
Lemma goToSlide_idempotent_witness :
  well_formed (decorate three_slides) /\ slides (decorate three_slides) <> []
  /\ normalize 3 4 = normalize 3 0
  /\ exists b1, scrollToSlide (decorate three_slides) 4 = Some b1
                /\ scrollToSlide b1 0 = Some b1.
Proof.
  assert (Hwf : well_formed (decorate three_slides)).
  { repeat constructor. by exists "https://www.youtube.com/watch?v=XYZ12345678", false. }
  split; [exact Hwf |]. split; [done |]. split; [reflexivity |].
  apply (goToSlide_idempotent (decorate three_slides) 4 0 Hwf); [done | reflexivity].
Defined.

(** C10, as stated, fails: an id the pattern accepts may hold a character
    the URL parser escapes; the id read back is then another one. *)
Lemma rebuild_changes_id_counterexample :
  createYouTubeEmbed "https://www.youtube.com/watch?v=abc{defghij" false
  = Some (mkEmbed "https://www.youtube.com/embed/abc{defghij?rel=0&enablejsapi=1")
  /\ rebuild false
       (mkSlide ["image-carousel-slide"; "video-slide"]
          (Some (Video (mkEmbed "https://www.youtube.com/embed/abc{defghij?rel=0&enablejsapi=1"))))
     = Some (mkSlide ["image-carousel-slide"; "video-slide"]
               (Some (Video (mkEmbed "https://www.youtube.com/embed/abc%7Bdefgh?rel=0&enablejsapi=1")))).
Proof. by vm_compute. Qed.

Lemma youtube_alphabet_path_stable c : youtube_alphabet c = true -> path_stable c = true.
Proof. by_cases_on_char c. Qed.

(** C10, amended: when the id captured from the URL is made of characters
    the URL parser leaves alone in a path -- the letters, digits, hyphen and
    underscore of YouTube's ids among them -- every rebuild of the playback
    sync yields the embed [createYouTubeEmbed] builds from the original URL:
    the same eleven-character id. *)
Theorem rebuild_keeps_id (url id : string) (autoplay autoplay' : bool) (e : Embed)
    (cls : list string) :
  createYouTubeEmbed url autoplay = Some e ->
  youtube_id url = Some id ->
  str_forallb path_stable id = true ->
  String.length id = 11
  /\ src_last_segment e = Some id
  /\ createYouTubeEmbed ("https://youtube.com/watch?v=" +:+ id) autoplay'
     = createYouTubeEmbed url autoplay'
  /\ rebuild autoplay' (mkSlide cls (Some (Video e)))
     = (fun e' => mkSlide cls (Some (Video e'))) <$> createYouTubeEmbed url autoplay'
  /\ is_Some (createYouTubeEmbed url autoplay').
Proof.
  intros He Hid Hst. pose proof (youtube_id_valid _ _ Hid) as Hv.
  unfold createYouTubeEmbed in He. rewrite Hid in He.
  change (Some (mkEmbed (embed_source id autoplay)) = Some e) in He. injection He as <-.
  destruct (src_last_segment_embed id Hv) as (seg & Hseg & _ & Hsame).
  specialize (Hsame Hst). subst seg.
  assert (Hw : forall a, createYouTubeEmbed ("https://youtube.com/watch?v=" +:+ id) a
                         = createYouTubeEmbed url a).
  { intros a. rewrite (createYouTubeEmbed_watch id a Hv). unfold createYouTubeEmbed.
    by rewrite Hid. }
  split; [unfold valid_id in Hv; apply andb_true_iff in Hv as [Hv _]; by apply Nat.eqb_eq |].
  split; [apply Hseg |]. split; [apply Hw |]. split.
  - unfold rebuild. cbn [slide_iframe s_child s_classes]. rewrite (Hseg autoplay), Hw.
    unfold createYouTubeEmbed. by rewrite Hid.
  - unfold createYouTubeEmbed. by rewrite Hid.
Qed.

(** The theorem at a short link with an id in YouTube's alphabet. *)
Lemma rebuild_keeps_id_witness :
  createYouTubeEmbed "https://youtu.be/dQw4w9WgXcQ" false
  = Some (mkEmbed "https://www.youtube.com/embed/dQw4w9WgXcQ?rel=0&enablejsapi=1")
  /\ youtube_id "https://youtu.be/dQw4w9WgXcQ" = Some "dQw4w9WgXcQ"
  /\ str_forallb path_stable "dQw4w9WgXcQ" = true
  /\ rebuild true
       (mkSlide ["image-carousel-slide"]
          (Some (Video (mkEmbed "https://www.youtube.com/embed/dQw4w9WgXcQ?rel=0&enablejsapi=1"))))
     = (fun e' => mkSlide ["image-carousel-slide"] (Some (Video e')))
         <$> createYouTubeEmbed "https://youtu.be/dQw4w9WgXcQ" true.
Proof.
  split; [reflexivity |]. split; [reflexivity |]. split; [reflexivity |].
  apply (rebuild_keeps_id "https://youtu.be/dQw4w9WgXcQ" "dQw4w9WgXcQ" false true
           (mkEmbed "https://www.youtube.com/embed/dQw4w9WgXcQ?rel=0&enablejsapi=1")
           ["image-carousel-slide"]); reflexivity.
Defined.

(** ** The video hero: the claims *)

Section HeroFacts.

Import VideoHero.

Implicit Types (b : VideoHero.Block) (src : Source) (evs : list Event).

Lemma embeds_loadVideoEmbed b l b' :
  loadVideoEmbed b l = Some b' ->
  observing b' = observing b
  /\ (embeds b' = embeds b \/ exists c, embeds b' = c :: embeds b).
Proof.
  unfold loadVideoEmbed. case_decide; [intros [= <-]; auto |].
  destruct (URL_parse l) as [u|]; [| done]. intros [= <-]. split; [done |]. right.
  unfold embeds. cbn [children List.filter].
  destruct (includes l "youtube" || includes l "youtu.be");
    [| destruct (includes l "vimeo")]; by eexists.
Qed.

Lemma at_most_once_decorate src : at_most_once (decorate src).
Proof.
  unfold at_most_once, decorate.
  destruct (negb (truthy (default EmptyString (anchor src)))); cbn; unfold embeds; cbn;
    [lia | done].
Qed.

Lemma at_most_once_step b e : at_most_once b -> at_most_once (step b e).
Proof.
  unfold at_most_once. intros H. destruct e as [entries reducedMotion|]; cbn [step].
  - destruct (observing b) eqn:Ho; [| by rewrite Ho].
    unfold callback. destruct (existsb id entries); [| by rewrite Ho].
    destruct reducedMotion; cbn [negb].
    + cbn. unfold embeds in *. cbn. rewrite H. cbn. lia.
    + destruct (loadVideoEmbed _ (link b)) as [b2|] eqn:E.
      * apply embeds_loadVideoEmbed in E as [-> [-> | [c ->]]]; cbn;
          unfold embeds in *; cbn; rewrite H; cbn; lia.
      * cbn. unfold embeds in *. cbn. rewrite H. cbn. lia.
  - destruct (embeds b) eqn:E; [by rewrite E |]. unfold embeds in *. cbn. by rewrite E.
Qed.

Lemma at_most_once_run b evs : at_most_once b -> at_most_once (run b evs).
Proof.
  revert b. induction evs as [|e evs IH]; intros b H; [done |].
  cbn. apply IH. by apply at_most_once_step.
Qed.

Lemma step_disconnected b e :
  observing b = false -> embeds b = [] -> step b e = b.
Proof. intros Ho He. destruct e; cbn; by rewrite ?Ho, ?He. Qed.

Lemma run_disconnected b evs :
  observing b = false -> embeds b = [] -> run b evs = b.
Proof.
  intros Ho He. induction evs as [|e evs IH]; [done |]. cbn.
  by rewrite step_disconnected.
Qed.

End HeroFacts.

Lemma embed_at_most_once_aux (src : VideoHero.Source) (evs : list VideoHero.Event) :
  length (VideoHero.embeds (VideoHero.run (VideoHero.decorate src) evs)) <= 1.
Proof.
  pose proof (at_most_once_run _ evs (at_most_once_decorate src)) as H.
  unfold at_most_once in H. destruct (VideoHero.observing _); [rewrite H; simpl; lia | done].
Qed.

(** C2: whatever intersection entries and load events reach a decorated
    video hero, in whatever order and however close together, at most one
    embed is ever constructed and inserted. *)
Theorem embed_constructed_at_most_once (src : VideoHero.Source) (evs : list VideoHero.Event) :
  length (VideoHero.embeds (VideoHero.run (VideoHero.decorate src) evs)) <= 1.
Proof.
  pose proof (at_most_once_run _ evs (at_most_once_decorate src)) as H.
  unfold at_most_once in H. destruct (VideoHero.observing _); [rewrite H; simpl; lia | done].
Qed.

(** The flag alone would not do: it is set by the load event only, so two
    calls of [loadVideoEmbed] before that event build two embeds.  It is the
    disconnect of the observer that keeps the second call from happening. *)
Remark loadVideoEmbed_twice_before_load :
  let b := VideoHero.decorate
             (VideoHero.mkSource (Some "https://youtu.be/dQw4w9WgXcQ") None None []) in
  exists b1 b2, VideoHero.loadVideoEmbed b (VideoHero.link b) = Some b1
                /\ VideoHero.loadVideoEmbed b1 (VideoHero.link b) = Some b2
                /\ length (VideoHero.embeds b2) = 2.
Proof. eexists _, _. split; [vm_compute; reflexivity |]. split; [vm_compute; reflexivity |]. done. Qed.

(** C7: when the first delivery with an intersecting entry finds the
    reduced-motion preference set, no iframe and no video element is ever
    constructed, and the block carries the [no-video] class. *)
Theorem reduced_motion_no_embed (src : VideoHero.Source) (evs : list VideoHero.Event)
    (url : string) :
  VideoHero.anchor src = Some url -> VideoHero.truthy url = true ->
  VideoHero.first_trigger evs = Some true ->
  VideoHero.embeds (VideoHero.run (VideoHero.decorate src) evs) = []
  /\ classList_contains (VideoHero.classList (VideoHero.run (VideoHero.decorate src) evs))
       "no-video" = true.
Proof.
  intros Ha Hu Ht.
  assert (H0 : VideoHero.observing (VideoHero.decorate src) = true
               /\ VideoHero.embeds (VideoHero.decorate src) = []).
  { unfold VideoHero.decorate. rewrite Ha.
    change (default EmptyString (Some url)) with url. by rewrite Hu. }
  revert H0 Ht. generalize (VideoHero.decorate src). clear.
  induction evs as [|e evs IH]; intros b [Ho He] Ht; [done |].
  change (VideoHero.run b (e :: evs)) with (VideoHero.run (VideoHero.step b e) evs).
  destruct e as [entries reducedMotion|];
    cbn [VideoHero.first_trigger] in Ht; cbn [VideoHero.step].
  - rewrite Ho. unfold VideoHero.callback. destruct (existsb id entries).
    + injection Ht as ->. cbn [negb]. rewrite run_disconnected; [| done | done].
      split; [done |]. cbn [VideoHero.classList]. apply contains_add.
    + by apply IH.
  - rewrite He. by apply IH.
Qed.

(** The theorem on a run whose first intersecting delivery sees the
    preference set, and a later one does not. *)
Lemma reduced_motion_no_embed_witness :
  let src := VideoHero.mkSource (Some "https://youtu.be/dQw4w9WgXcQ") (Some "Title") None
               ["video-hero"] in
  let evs := [VideoHero.Intersection [false] false; VideoHero.Intersection [false; true] true;
              VideoHero.Intersection [true] false; VideoHero.EmbedReady] in
  VideoHero.anchor src = Some "https://youtu.be/dQw4w9WgXcQ"
  /\ VideoHero.truthy "https://youtu.be/dQw4w9WgXcQ" = true
  /\ VideoHero.first_trigger evs = Some true
  /\ VideoHero.embeds (VideoHero.run (VideoHero.decorate src) evs) = []
  /\ classList_contains (VideoHero.classList (VideoHero.run (VideoHero.decorate src) evs))
       "no-video" = true.
Proof.
  intros src evs. split; [reflexivity |]. split; [reflexivity |]. split; [reflexivity |].
  apply (reduced_motion_no_embed src evs "https://youtu.be/dQw4w9WgXcQ"); reflexivity.
Defined.

(** C8: configured with the short link of the scenario, the first
    intersecting delivery without the reduced-motion preference inserts one
    iframe; its source holds the id as the embed target, and its playlist
    parameter is that id. *)
Theorem youtu_be_embed (h1 h2 : option string) (cls : list string) :
  let b := VideoHero.step
             (VideoHero.decorate
                (VideoHero.mkSource (Some "https://youtu.be/dQw4w9WgXcQ") h1 h2 cls))
             (VideoHero.Intersection [true] false) in
  exists src u,
    VideoHero.embeds b = [VideoHero.Background (VideoHero.Iframe src)]
    /\ src = "https://www.youtube.com/embed/dQw4w9WgXcQ?rel=0&v=dQw4w9WgXcQ&autoplay=1&mute=1&controls=0&disablekb=1&loop=1&playsinline=1&playlist=dQw4w9WgXcQ"
    /\ includes src "dQw4w9WgXcQ" = true
    /\ URL_parse src = Some u
    /\ pathname u = "/embed/dQw4w9WgXcQ"
    /\ usp_get (URLSearchParams (search u)) "playlist" = Some "dQw4w9WgXcQ"
    /\ usp_get (URLSearchParams (search u)) "loop" = Some "1".
Proof.
  cbv zeta. eexists _, _. split; [reflexivity |]. split; [reflexivity |].
  split; [by vm_compute |]. split; [vm_compute; reflexivity |]. by vm_compute.
Qed.

(** C9: a video hero without an anchor is decorated into the fixed message
    alone, with no observer; whatever happens afterwards leaves it as it
    is. *)
Theorem missing_url_is_terminal (src : VideoHero.Source) (evs : list VideoHero.Event) :
  VideoHero.anchor src = None ->
  VideoHero.decorate src
  = VideoHero.mkBlock [VideoHero.Text "Video URL is required"] (VideoHero.classes src)
      None false EmptyString
  /\ VideoHero.observing (VideoHero.decorate src) = false
  /\ VideoHero.embeds (VideoHero.decorate src) = []
  /\ VideoHero.run (VideoHero.decorate src) evs = VideoHero.decorate src.
Proof.
  intros Ha.
  assert (E : VideoHero.decorate src
              = VideoHero.mkBlock [VideoHero.Text "Video URL is required"]
                  (VideoHero.classes src) None false EmptyString)
    by (unfold VideoHero.decorate; by rewrite Ha).
  split; [exact E |]. rewrite E. split; [done |]. split; [done |].
  by apply run_disconnected.
Qed.

(** The theorem on a block with headings and no anchor. *)
Lemma missing_url_is_terminal_witness :
  let src := VideoHero.mkSource None (Some "Title") (Some "Subtitle") ["video-hero"] in
  let evs := [VideoHero.Intersection [true] false; VideoHero.EmbedReady] in
  VideoHero.anchor src = None
  /\ VideoHero.run (VideoHero.decorate src) evs
     = VideoHero.mkBlock [VideoHero.Text "Video URL is required"] ["video-hero"]
         None false EmptyString.
Proof.
  intros src evs. split; [reflexivity |].
  destruct (missing_url_is_terminal src evs) as (H1 & _ & _ & H4); [reflexivity |].
  rewrite H4. exact H1.
Defined.

(** ** The carousel: more of what the code does *)

Section AutoplayFacts.

Implicit Types (b : Block) (s : Slide) (id : string) (k i : nat).

Lemma includes_cons c (r sub : string) :
  includes (String c r) sub
  = match strip_prefix sub (String c r) with Some _ => true | None => includes r sub end.
Proof. done. Qed.

(** A needle that starts with [c0] is not found inside text without [c0]. *)
Lemma includes_skip (c0 : ascii) (sub a r : string) :
  str_forallb (fun x => negb (Ascii.eqb c0 x)) a = true ->
  includes (a +:+ r) (String c0 sub) = includes r (String c0 sub).
Proof.
  induction a as [|x a IH]; [done |]. cbn [str_forallb].
  intros [Hx Ha]%andb_true_iff. apply negb_true_iff in Hx.
  change (String x a +:+ r) with (String x (a +:+ r)).
  rewrite includes_cons. cbn [strip_prefix]. rewrite Hx. by apply IH.
Qed.

Lemma valid_id_chars id : valid_id id = true -> str_forallb id_char id = true.
Proof. unfold valid_id. by intros [_ ?]%andb_true_iff. Qed.

Lemma is_autoplay_embed_source id autoplay :
  valid_id id = true -> is_autoplay (embed_source id autoplay) = autoplay.
Proof.
  intros Hid%valid_id_chars. unfold is_autoplay, embed_source.
  rewrite (includes_skip "&" _ "https://www.youtube.com/embed/") by done.
  rewrite (includes_skip "&" _ id)
    by (eapply str_forallb_impl; [apply id_char_not_ampersand | done]).
  by destruct autoplay.
Qed.

Lemma calm_well_formed s : calm_slide s -> well_formed_slide s.
Proof.
  unfold calm_slide, well_formed_slide. destruct (slide_iframe s) as [e|]; [| done].
  intros (id & a & Hid & -> & _). by apply (well_formed_video [] id a).
Qed.

Lemma calm_cases s :
  calm_slide s ->
  slide_iframe s = None
  \/ exists id autoplay, valid_id id = true
       /\ s = mkSlide (s_classes s) (Some (Video (mkEmbed (embed_source id autoplay))))
       /\ (autoplay = true -> str_forallb path_stable id = true).
Proof.
  unfold calm_slide, slide_iframe. destruct s as [cls [[e|p]|]]; cbn; auto.
  intros (id & a & Hid & -> & Ha). right. by exists id, a.
Qed.

Lemma calm_video cls id autoplay :
  valid_id id = true -> (autoplay = true -> str_forallb path_stable id = true) ->
  calm_slide (mkSlide cls (Some (Video (mkEmbed (embed_source id autoplay))))).
Proof. intros Hid Ha. by exists id, autoplay. Qed.

(** A rebuild of a calm slide gives a calm slide whose embed autoplays only
    if the rebuild asked for it. *)
Lemma default_Some {A} (x y : A) : default x (Some y) = y.
Proof. done. Qed.

Lemma rebuilt_calm autoplay s :
  calm_slide s ->
  calm_slide (rebuilt autoplay s)
  /\ (autoplaying (rebuilt autoplay s) = true -> autoplay = true).
Proof.
  intros Hc. unfold rebuilt.
  destruct (calm_cases s Hc) as [H | (id & a0 & Hid & E & Ha)].
  - rewrite (rebuild_no_iframe _ _ H), default_Some. split; [done |].
    unfold autoplaying. by rewrite H.
  - rewrite E. destruct (rebuild_video (s_classes s) id a0 Hid) as (seg & Hst & Hsame & H).
    rewrite H, default_Some. destruct (group1 seg) as [id1|] eqn:E1.
    + destruct (group1_valid _ _ E1) as [Hid1 [r ->]]. apply stable_prefix in Hst.
      split; [by apply calm_video |]. unfold autoplaying. cbn [slide_iframe s_child iframe_src].
      by rewrite (is_autoplay_embed_source id1 autoplay Hid1).
    + split; [by apply calm_video |]. unfold autoplaying. cbn [slide_iframe s_child iframe_src].
      rewrite (is_autoplay_embed_source id a0 Hid). intros ->.
      rewrite (Hsame (Ha eq_refl)), (group1_exact id Hid) in E1. done.
Qed.

Lemma calm_settle k i s :
  calm_slide s ->
  calm_slide (settle k i s) /\ (autoplaying (settle k i s) = true -> i = k).
Proof.
  intros Hc. unfold settle. destruct (Nat.eqb_spec i k) as [->|Hne].
  - split; [| done]. unfold play. case_match; [| by apply rebuilt_calm].
    by apply rebuilt_calm, rebuilt_calm.
  - destruct (rebuilt_calm false (deactivate s)) as [H1 H2]; [done |].
    split; [done |]. intros H. by apply H2 in H.
Qed.

Lemma calm_settled k b : calm b -> calm (settled k b).
Proof.
  unfold calm, settled. cbn [slides]. intros Hc.
  apply Forall_lookup_2. intros i x. rewrite list_lookup_imap.
  destruct (slides b !! i) as [s|] eqn:E; [| done]. intros [= <-].
  apply calm_settle. by eapply Forall_lookup_1.
Qed.

Lemma positions_subset {A} (p : A -> bool) (l : list A) k j :
  (forall i x, l !! i = Some x -> p x = true -> i = k) ->
  positions p j l = [] \/ positions p j l = [j + k].
Proof.
  revert k j. induction l as [|x l IH]; intros k j H; [by left |].
  cbn [positions]. destruct (p x) eqn:Hx.
  - right. rewrite <- (H 0 x eq_refl Hx), Nat.add_0_r. f_equal.
    assert (Hnone : forall i y, l !! i = Some y -> p y = false).
    { intros i y Hy. destruct (p y) eqn:E; [| done].
      pose proof (H (S i) y Hy E) as E1. pose proof (H 0 x eq_refl Hx) as E2. lia. }
    clear -Hnone. revert j. induction l as [|y l IH]; intros j; [done |].
    cbn [positions]. rewrite (Hnone 0 y eq_refl). apply IH.
    intros i z Hz. apply (Hnone (S i) z Hz).
  - destruct k as [|k].
    + left. assert (Hnone : forall i y, l !! i = Some y -> p y = false).
      { intros i y Hy. destruct (p y) eqn:E; [| done]. by pose proof (H (S i) y Hy E). }
      clear -Hnone. generalize (S j). induction l as [|y l IH]; intros n; [done |].
      cbn [positions]. rewrite (Hnone 0 y eq_refl). apply IH.
      intros i z Hz. apply (Hnone (S i) z Hz).
    + destruct (IH k (S j)) as [-> | ->]; [| by left | right; f_equal; lia].
      intros i y Hy Hp. pose proof (H (S i) y Hy Hp). lia.
Qed.

Lemma playing_slides_settled k b :
  calm b -> playing_slides (settled k b) = [] \/ playing_slides (settled k b) = [k].
Proof.
  intros Hc. unfold playing_slides, settled. cbn [slides].
  apply (positions_subset autoplaying _ k 0).
  intros i x. rewrite list_lookup_imap. destruct (slides b !! i) as [s|] eqn:E; [| done].
  intros [= <-]. apply calm_settle. by eapply Forall_lookup_1.
Qed.

Lemma calm_decorate rows : calm (decorate rows).
Proof.
  unfold calm. rewrite slides_decorate. apply Forall_fmap, Forall_lookup_2.
  intros i x. rewrite list_lookup_imap. destruct (rows !! i) as [row|]; [| done].
  intros [= <-]. cbn. unfold decorate_slide.
  destruct (row_link row) as [[j href]|]; [| by destruct (row_img row) as [[? ?]|]].
  destruct (createYouTubeEmbed href false) as [e|] eqn:E; [| done].
  apply createYouTubeEmbed_source in E as (id & _ & Hid & ->). by apply calm_video.
Qed.

End AutoplayFacts.

Section SequenceFacts.

Implicit Types (b : Block) (s : Slide) (ts : list Z) (k i : nat).

Lemma length_slides_settled k b : length (slides (settled k b)) = length (slides b).
Proof. unfold settled. cbn [slides]. by rewrite length_imap. Qed.

Lemma normalized_in_range b t :
  slides b <> [] -> Z.to_nat (normalize (Z.of_nat (length (slides b))) t) < length (slides b).
Proof.
  intros Hne. pose proof (normalize_range (Z.of_nat (length (slides b))) t) as H.
  destruct (slides b); [done |]. cbn [length] in *. lia.
Qed.

Lemma goToSlides_snoc b ts t :
  goToSlides b (ts ++ [t])
  = match goToSlides b ts with
    | Some b' => scrollToSlide b' t
    | None => None
    end.
Proof.
  revert b. induction ts as [|t' ts IH]; intros b; cbn [goToSlides app].
  - by destruct (scrollToSlide b t).
  - destruct (scrollToSlide b t'); [apply IH | done].
Qed.

(** Whatever one settled transition keeps, every run of transitions keeps. *)
Lemma goToSlides_invariant (P : Block -> Prop) b ts :
  (forall k b, P b -> well_formed b -> k < length (slides b) -> P (settled k b)) ->
  P b -> well_formed b -> slides b <> [] ->
  exists b', goToSlides b ts = Some b' /\ P b' /\ well_formed b'
             /\ length (slides b') = length (slides b).
Proof.
  intros Hkeep. revert b. induction ts as [|t ts IH]; intros b HP Hwf Hne; [by exists b |].
  cbn [goToSlides]. rewrite scrollToSlide_settled by done.
  set (k := Z.to_nat _).
  destruct (IH (settled k b)) as (b' & H1 & H2 & H3 & H4).
  - apply Hkeep; [done | done |]. by apply normalized_in_range.
  - by apply well_formed_settled.
  - intros E. apply (f_equal length) in E. rewrite length_slides_settled in E.
    by destruct (slides b).
  - exists b'. by rewrite H4, length_slides_settled.
Qed.

Lemma slides_decorate_nonempty rows : rows <> [] -> slides (decorate rows) <> [].
Proof.
  intros Hne E. apply (f_equal length) in E. rewrite length_slides_decorate in E.
  by destruct rows.
Qed.

Lemma positions_none {A} (p : A -> bool) (l : list A) j :
  Forall (fun x => p x = false) l -> positions p j l = [].
Proof.
  intros H. revert j. induction H as [|x l Hx _ IH]; intros j; [done |].
  cbn [positions]. by rewrite Hx.
Qed.

Lemma contains_add_other c d cl :
  c <> d -> classList_contains (classList_add c cl) d = classList_contains cl d.
Proof.
  intros Hne. unfold classList_add. destruct (classList_contains cl c); [done |].
  rewrite contains_app. unfold classList_contains at 2, str_in. simpl.
  destruct (String.eqb_spec d c); [congruence |]. by rewrite !orb_false_r.
Qed.

Lemma contains_remove_other c d cl :
  c <> d -> classList_contains (classList_remove c cl) d = classList_contains cl d.
Proof.
  intros Hne. unfold classList_contains, classList_remove, str_in.
  induction cl as [|x cl IH]; simpl; [done |].
  destruct (String.eqb_spec x c) as [->|Hx]; simpl.
  - destruct (String.eqb_spec d c); [congruence | done].
  - by rewrite IH.
Qed.

Lemma rebuilt_keeps_iframe autoplay s :
  well_formed_slide s ->
  is_Some (slide_iframe (rebuilt autoplay s)) <-> is_Some (slide_iframe s).
Proof.
  intros Hwf. unfold rebuilt.
  destruct (well_formed_slide_cases s Hwf) as [H | (id & a0 & Hid & E)].
  - by rewrite (rebuild_no_iframe _ _ H).
  - rewrite E. destruct (rebuild_video (s_classes s) id a0 Hid) as (seg & _ & _ & H).
    rewrite H, default_Some. destruct (group1 seg); cbn; split; by eexists.
Qed.

Lemma video_class_settle k i s :
  well_formed_slide s -> video_class_matches s -> video_class_matches (settle k i s).
Proof.
  intros Hwf Hm. unfold video_class_matches in *. rewrite settle_s_classes.
  assert (Hcls : classList_contains
                   (if i =? k then classList_add "active" (classList_remove "active" (s_classes s))
                    else classList_remove "active" (s_classes s)) "video-slide"
                 = classList_contains (s_classes s) "video-slide").
  { destruct (i =? k); rewrite ?contains_add_other, ?contains_remove_other; done. }
  rewrite Hcls, Hm. apply bool_decide_ext. unfold settle, play.
  destruct (i =? k); [case_match |]; rewrite ?rebuilt_keeps_iframe; try done.
  all: by repeat first [apply well_formed_rebuilt | apply well_formed_activate
                       | apply well_formed_deactivate].
Qed.

End SequenceFacts.

(** ** The carousel: further properties *)

(** X1: after decoration no embed autoplays, and after every run of
    transitions the only slide whose embed autoplays, if there is one, is
    the active slide. *)
Theorem only_active_video_plays (rows : list Row) (ts : list Z) (t : Z) :
  rows <> [] ->
  playing_slides (decorate rows) = []
  /\ exists b', goToSlides (decorate rows) (ts ++ [t]) = Some b'
                /\ (playing_slides b' = [] \/ playing_slides b' = active_slides b').
Proof.
  intros Hne. split.
  - unfold playing_slides. apply positions_none.
    pose proof (calm_decorate rows) as Hc. unfold calm in Hc.
    rewrite slides_decorate in *. apply Forall_fmap, Forall_lookup_2.
    intros i x. rewrite list_lookup_imap. destruct (rows !! i) as [row|]; [| done].
    intros [= <-]. cbn. unfold decorate_slide, autoplaying.
    destruct (row_link row) as [[j href]|]; [| by destruct (row_img row) as [[? ?]|]].
    destruct (createYouTubeEmbed href false) as [e|] eqn:E; [| done].
    apply createYouTubeEmbed_source in E as (id & _ & Hid & ->).
    cbn [fst slide_iframe s_child iframe_src]. by apply is_autoplay_embed_source.
  - rewrite goToSlides_snoc.
    destruct (goToSlides_invariant calm (decorate rows) ts) as (b & -> & Hc & Hwf & Hlen).
    + intros k b Hb _ _. by apply calm_settled.
    + apply calm_decorate.
    + apply well_formed_decorate.
    + by apply slides_decorate_nonempty.
    + assert (Hb : slides b <> []).
      { intros E. rewrite E in Hlen. by apply slides_decorate_nonempty in Hne;
          destruct (slides (decorate rows)). }
      rewrite scrollToSlide_settled by done. eexists. split; [done |].
      rewrite active_slides_settled by by apply normalized_in_range.
      by apply playing_slides_settled.
Qed.

(** The theorem on the three slides, after prev, prev and a click on the
    second indicator. *)
Lemma only_active_video_plays_witness :
  three_slides <> []
  /\ exists b', goToSlides (decorate three_slides) ([-1; 1] ++ [1])%Z = Some b'
                /\ (playing_slides b' = [] \/ playing_slides b' = active_slides b').
Proof.
  split; [done |]. apply (only_active_video_plays three_slides [-1; 1]%Z 1%Z). done.
Defined.

(** X2: activating a video slide whose id is made of characters the URL
    parser leaves alone puts the autoplaying embed of that id into it; on
    every other such slide the same call puts the embed of its id that does
    not autoplay. *)
Theorem active_video_autoplays (b : Block) (t : Z) (i : nat) (cls : list string)
    (id : string) (autoplay : bool) :
  well_formed b ->
  slides b !! i = Some (mkSlide cls (Some (Video (mkEmbed (embed_source id autoplay))))) ->
  classList_contains cls "video-slide" = true ->
  valid_id id = true -> str_forallb path_stable id = true ->
  exists b', scrollToSlide b t = Some b'
             /\ embed_src b' i
                = Some (embed_source id
                          (i =? Z.to_nat (normalize (Z.of_nat (length (slides b))) t))).
Proof.
  intros Hwf Hi Hcls Hid Hst.
  assert (Hne : slides b <> []) by (intros E; by rewrite E in Hi).
  rewrite scrollToSlide_settled by done. eexists. split; [done |].
  set (k := Z.to_nat _). unfold embed_src, settled. cbn [slides].
  rewrite list_lookup_imap, Hi. cbn [fmap option_fmap option_map].
  assert (Hre : forall cl a0 a,
            rebuilt a (mkSlide cl (Some (Video (mkEmbed (embed_source id a0)))))
            = mkSlide cl (Some (Video (mkEmbed (embed_source id a))))).
  { intros cl a0 a. unfold rebuilt.
    destruct (rebuild_video cl id a0 Hid) as (seg & _ & Hsame & H).
    by rewrite H, (Hsame Hst), (group1_exact id Hid). }
  unfold settle, play, activate, deactivate. cbn [s_classes s_child].
  destruct (i =? k).
  - rewrite Hre. cbn [s_classes].
    rewrite contains_add_other, contains_remove_other, Hcls by done. by rewrite Hre.
  - by rewrite Hre.
Qed.

Lemma active_video_autoplays_witness :
  exists b',
    scrollToSlide (decorate three_slides) 1 = Some b'
    /\ embed_src b' 1 = Some (embed_source "XYZ12345678" true).
Proof.
  apply (active_video_autoplays (decorate three_slides) 1 1
           ["image-carousel-slide"; "video-slide"] "XYZ12345678" false).
  - repeat constructor. by exists "https://www.youtube.com/watch?v=XYZ12345678", false.
  - reflexivity.
  - reflexivity.
  - reflexivity.
  - reflexivity.
Defined.

Lemma targets_omap_imap {A B} (p : A -> bool) (tg : B -> nat)
    (f : nat -> A -> option B) (g : nat -> A -> A) (l : list A) j :
  (forall i x, if p x then exists y, f i (g i x) = Some y /\ tg y = j + i
               else f i (g i x) = None) ->
  tg <$> omap id (imap f (imap g l)) = positions p j l.
Proof.
  revert j f g. induction l as [|r l IH]; intros j f g H; [done |].
  pose proof (H 0 r) as H0. cbn.
  assert (Htl : tg <$> omap id (imap (f ∘ S) (imap (g ∘ S) l)) = positions p (S j) l).
  { apply IH. intros i x. specialize (H (S i) x). cbn. destruct (p x); [| done].
    destruct H as (z & ? & ?). exists z. split; [done | lia]. }
  destruct (p r).
  - destruct H0 as (y & -> & Hy). cbn. rewrite Hy, Nat.add_0_r. by f_equal.
  - by rewrite H0.
Qed.

(** X3: the thumbnails point, in order, at exactly the rows for which
    [shows_image] holds: those that hold an image, or whose first link with
    [youtube.com] or [youtu.be] in its [href] attribute has an [href] in
    which the pattern finds an id.  A row whose first such link yields no
    id gets no thumbnail from a later link. *)
Theorem thumbnails_follow_rows (rows : list Row) :
  1 < length rows ->
  t_target <$> thumbnails (decorate rows) = positions shows_image 0 rows.
Proof.
  intros Hlen. unfold decorate. apply Nat.ltb_lt in Hlen. rewrite Hlen.
  cbn [thumbnails]. unfold createThumbnails. rewrite fmap_imap.
  apply (targets_omap_imap shows_image). intros i row. cbn.
  pose proof (row_img_after_decorate i row) as Hrow.
  destruct (row_img (snd (decorate_slide i row))) as [[src alt]|].
  - destruct Hrow as [-> _]; [by eexists |]. by eexists.
  - destruct (shows_image row); [| done]. destruct Hrow as [_ Hrow].
    by destruct (Hrow eq_refl).
Qed.

Lemma thumbnails_follow_rows_witness :
  1 < length gap_slides /\ t_target <$> thumbnails (decorate gap_slides) = [0; 2].
Proof. split; [vm_compute; lia |]. apply (thumbnails_follow_rows gap_slides). vm_compute; lia. Defined.

(** X4: on a well-formed block [scrollToSlide] throws exactly when there is
    no slide, whatever the index. *)
Theorem scrollToSlide_returns_iff (b : Block) (t : Z) :
  well_formed b -> (is_Some (scrollToSlide b t) <-> slides b <> []).
Proof.
  intros Hwf. split.
  - intros [b' H] E. revert H. unfold scrollToSlide. rewrite E. cbn.
    unfold at_index, normalize. cbn. by repeat case_match.
  - intros Hne. rewrite scrollToSlide_settled by done. by eexists.
Qed.

Lemma scrollToSlide_returns_iff_witness :
  well_formed (Carousel.mkBlock [] false [] [] None)
  /\ scrollToSlide (Carousel.mkBlock [] false [] [] None) 0 = None.
Proof.
  split; [by constructor |].
  destruct (scrollToSlide_returns_iff (Carousel.mkBlock [] false [] [] None) 0) as [H _];
    [by constructor |].
  destruct (scrollToSlide (Carousel.mkBlock [] false [] [] None) 0) eqn:E; [| reflexivity].
  exfalso. apply H; [by eexists | reflexivity].
Defined.

Lemma fmap_imap_same {A B} (g : A -> B) (f : nat -> A -> A) (l : list A) :
  (forall i x, g (f i x) = g x) -> g <$> imap f l = g <$> l.
Proof.
  intros H. apply list_eq. intros i. rewrite !list_lookup_fmap, list_lookup_imap.
  destruct (l !! i); cbn; [by rewrite H | done].
Qed.

(** X5: a transition leaves the navigation, the number of slides, the
    labels and targets of indicators and thumbnails and the thumbnail
    pictures as they are; on a slide it changes nothing but the active class
    and the video embed. *)
Theorem transition_frame (b : Block) (t : Z) :
  well_formed b -> slides b <> [] ->
  exists b', scrollToSlide b t = Some b'
    /\ navigation b' = navigation b
    /\ length (slides b') = length (slides b)
    /\ i_label <$> indicators b' = i_label <$> indicators b
    /\ i_target <$> indicators b' = i_target <$> indicators b
    /\ t_label <$> thumbnails b' = t_label <$> thumbnails b
    /\ t_target <$> thumbnails b' = t_target <$> thumbnails b
    /\ t_picture <$> thumbnails b' = t_picture <$> thumbnails b
    /\ forall i s s', slides b !! i = Some s -> slides b' !! i = Some s' ->
         classList_remove "active" (s_classes s') = classList_remove "active" (s_classes s)
         /\ (slide_iframe s = None -> s_child s' = s_child s).
Proof.
  intros Hwf Hne. rewrite scrollToSlide_settled by done. eexists. split; [done |].
  set (k := Z.to_nat _). unfold settled, updateThumbnails, updateIndicators.
  cbn [slides navigation indicators thumbnails]. rewrite length_imap.
  rewrite !fmap_imap_same by done. do 7 (split; [done |]).
  intros i s s' Hs. rewrite list_lookup_imap, Hs. intros [= <-].
  split.
  - rewrite settle_s_classes. destruct (i =? k); by rewrite ?remove_add, remove_remove.
  - intros Hno. unfold settle, play, rebuilt.
    assert (E : forall a cls, rebuild a (mkSlide cls (s_child s)) = Some (mkSlide cls (s_child s))).
    { intros a cls. apply rebuild_no_iframe. unfold slide_iframe in *. by destruct s. }
    unfold activate, deactivate. cbn [s_child s_classes].
    destruct (i =? k); rewrite !E, ?default_Some; cbn [s_classes s_child]; [| done].
    case_match; [by rewrite E | done].
Qed.

Lemma transition_frame_witness :
  well_formed (decorate three_slides) /\ slides (decorate three_slides) <> []
  /\ exists b', scrollToSlide (decorate three_slides) 4 = Some b'
                /\ navigation b' = true
                /\ length (slides b') = 3.
Proof.
  assert (Hwf : well_formed (decorate three_slides)).
  { repeat constructor. by exists "https://www.youtube.com/watch?v=XYZ12345678", false. }
  split; [exact Hwf |]. split; [done |].
  destruct (transition_frame (decorate three_slides) 4 Hwf) as (b' & H1 & H2 & H3 & _); [done |].
  exists b'. split; [exact H1 |]. split; [exact H2 | exact H3].
Defined.

(** X6: after a transition the [aria-selected] attribute of every indicator
    and of every thumbnail says whether the element carries the active
    class. *)
Theorem aria_selected_follows_active (b : Block) (t : Z) :
  well_formed b -> slides b <> [] ->
  exists b', scrollToSlide b t = Some b'
    /\ Forall (fun x => i_selected x = String_of_bool (is_active (i_classes x))) (indicators b')
    /\ Forall (fun x => t_selected x = String_of_bool (is_active (t_classes x))) (thumbnails b').
Proof.
  intros Hwf Hne. rewrite scrollToSlide_settled by done. eexists. split; [done |].
  unfold settled, updateThumbnails, updateIndicators. cbn [indicators thumbnails].
  split; apply Forall_lookup_2; intros i x; rewrite list_lookup_imap.
  - destruct (indicators b !! i); [| done]. intros [= <-]. cbn [i_selected i_classes].
    unfold is_active. by rewrite contains_toggle.
  - destruct (thumbnails b !! i); [| done]. intros [= <-]. cbn [t_selected t_classes].
    unfold is_active. by rewrite contains_toggle.
Qed.

Lemma aria_selected_follows_active_witness :
  well_formed (decorate gap_slides) /\ slides (decorate gap_slides) <> []
  /\ exists b', scrollToSlide (decorate gap_slides) 1 = Some b'
       /\ Forall (fun x => i_selected x = String_of_bool (is_active (i_classes x))) (indicators b')
       /\ Forall (fun x => t_selected x = String_of_bool (is_active (t_classes x))) (thumbnails b').
Proof.
  assert (Hwf : well_formed (decorate gap_slides)) by (by repeat constructor).
  split; [exact Hwf |]. split; [done |].
  apply (aria_selected_follows_active (decorate gap_slides) 1 Hwf). done.
Defined.

(** X7: after a transition the index kept in [dataset.currentSlide] reads
    back as the index of the active slide; an intersecting entry for that
    slide then leaves the block as it is, and one for another slide is a
    transition to that slide. *)
Theorem stored_index_reads_back (b : Block) (t : Z) :
  well_formed b -> slides b <> [] ->
  let k := Z.to_nat (normalize (Z.of_nat (length (slides b))) t) in
  exists b', scrollToSlide b t = Some b'
    /\ active_slides b' = [k]
    /\ currentSlide b' ≫= parseInt = Some (Z.of_nat k)
    /\ observe_entry b' k = Some b'
    /\ forall j, j <> k -> observe_entry b' j = scrollToSlide b' (Z.of_nat j).
Proof.
  intros Hwf Hne k. rewrite scrollToSlide_settled by done. fold k. eexists. split; [done |].
  split; [by apply active_slides_settled, normalized_in_range |].
  assert (E : currentSlide (settled k b) ≫= parseInt = Some (Z.of_nat k)).
  { unfold settled. cbn [currentSlide mbind option_bind]. apply parseInt_String_of_number. }
  split; [done |]. unfold observe_entry. rewrite E. split.
  - by case_decide.
  - intros j Hj. case_decide as H; [| done]. injection H as H. lia.
Qed.

Lemma stored_index_reads_back_witness :
  well_formed (decorate three_slides) /\ slides (decorate three_slides) <> []
  /\ exists b', scrollToSlide (decorate three_slides) (-1) = Some b'
                /\ active_slides b' = [2]
                /\ currentSlide b' ≫= parseInt = Some 2%Z
                /\ observe_entry b' 2 = Some b'.
Proof.
  assert (Hwf : well_formed (decorate three_slides)).
  { repeat constructor. by exists "https://www.youtube.com/watch?v=XYZ12345678", false. }
  split; [exact Hwf |]. split; [done |].
  destruct (stored_index_reads_back (decorate three_slides) (-1) Hwf) as (b' & H1 & H2 & H3 & H4 & _);
    [done |].
  exists b'. split; [exact H1 |]. split; [exact H2 |]. split; [exact H3 | exact H4].
Defined.

(** [navigation_clicks_modular] on the three slides, from index 0. *)
Lemma navigation_clicks_modular_witness :
  well_formed (decorate three_slides) /\ slides (decorate three_slides) <> []
  /\ currentSlide (decorate three_slides) = Some (String_of_number 0)
  /\ (0 <= 0 < 3)%Z
  /\ (exists b1, prev_click (decorate three_slides) = Some b1 /\ active_slides b1 = [2])
  /\ (exists b2, next_click (decorate three_slides) = Some b2 /\ active_slides b2 = [1]).
Proof.
  assert (Hwf : well_formed (decorate three_slides)).
  { repeat constructor. by exists "https://www.youtube.com/watch?v=XYZ12345678", false. }
  split; [exact Hwf |]. split; [done |]. split; [reflexivity |]. split; [lia |].
  apply (navigation_clicks_modular (decorate three_slides) 0 Hwf); [done | reflexivity | ].
  vm_compute. split; [discriminate | reflexivity].
Defined.

Section NavigationFacts.

Implicit Types (b : Block) (k : Z).

Lemma nav_click_settled b k (d : Z) :
  well_formed b -> slides b <> [] ->
  currentSlide b = Some (String_of_number k) ->
  (match currentSlide b ≫= parseInt with
   | Some currentIndex => scrollToSlide b (currentIndex + d)
   | None => None
   end)
  = Some (settled (Z.to_nat (normalize (Z.of_nat (length (slides b))) (k + d))) b).
Proof.
  intros Hwf Hne ->. cbn [mbind option_bind]. rewrite parseInt_String_of_number.
  by apply scrollToSlide_settled.
Qed.

Lemma currentSlide_settled n b :
  currentSlide (settled n b) = Some (String_of_number (Z.of_nat n)).
Proof. done. Qed.

Lemma settled_nonempty n b : slides b <> [] -> slides (settled n b) <> [].
Proof.
  intros Hne E. apply (f_equal length) in E. rewrite length_slides_settled in E.
  by destruct (slides b).
Qed.

End NavigationFacts.

(** X9: from a stored index in range, prev followed by next, and next
    followed by prev, come back to the slide they started from, with the
    same stored index. *)
Theorem prev_next_round_trip (b : Block) (k : Z) :
  well_formed b -> slides b <> [] ->
  currentSlide b = Some (String_of_number k) ->
  (0 <= k < Z.of_nat (length (slides b)))%Z ->
  (exists b1 b2, prev_click b = Some b1 /\ next_click b1 = Some b2
                 /\ active_slides b2 = [Z.to_nat k] /\ currentSlide b2 = currentSlide b)
  /\ (exists b1 b2, next_click b = Some b1 /\ prev_click b1 = Some b2
                    /\ active_slides b2 = [Z.to_nat k] /\ currentSlide b2 = currentSlide b).
Proof.
  intros Hwf Hne Hcur Hk.
  assert (Hback : forall d : Z, (d = 1 \/ d = -1)%Z ->
    let k1 := Z.to_nat (normalize (Z.of_nat (length (slides b))) (k + d)) in
    Z.to_nat (normalize (Z.of_nat (length (slides (settled k1 b)))) (Z.of_nat k1 + - d))
    = Z.to_nat k).
  { intros d Hd k1. rewrite length_slides_settled. unfold k1, normalize.
    repeat (case_match; try lia); rewrite ?Z2Nat.id in * by lia; try lia. }
  assert (Hgo : forall d : Z, (d = 1 \/ d = -1)%Z ->
    let k1 := Z.to_nat (normalize (Z.of_nat (length (slides b))) (k + d)) in
    let b2 := settled (Z.to_nat k) (settled k1 b) in
    (match currentSlide (settled k1 b) ≫= parseInt with
     | Some currentIndex => scrollToSlide (settled k1 b) (currentIndex + - d)
     | None => None
     end) = Some b2
    /\ active_slides b2 = [Z.to_nat k] /\ currentSlide b2 = currentSlide b).
  { intros d Hd. cbv zeta. specialize (Hback d Hd). cbv zeta in Hback.
    set (k1 := Z.to_nat (normalize (Z.of_nat (length (slides b))) (k + d))) in *.
    rewrite (nav_click_settled (settled k1 b) (Z.of_nat k1) (- d));
      [| by apply well_formed_settled | by apply settled_nonempty | done].
    rewrite Hback. split; [done |]. split.
    - apply active_slides_settled. rewrite length_slides_settled. lia.
    - rewrite currentSlide_settled, Hcur, Z2Nat.id by lia. done. }
  pose proof (nav_click_settled b k (-1) Hwf Hne Hcur) as Hprev.
  pose proof (nav_click_settled b k 1 Hwf Hne Hcur) as Hnext.
  change (prev_click b = Some (settled (Z.to_nat (normalize (Z.of_nat (length (slides b)))
                                                    (k + -1))) b)) in Hprev.
  change (next_click b = Some (settled (Z.to_nat (normalize (Z.of_nat (length (slides b)))
                                                    (k + 1))) b)) in Hnext.
  split.
  - eexists _, _. split; [exact Hprev |]. apply (Hgo (-1)%Z). by right.
  - eexists _, _. split; [exact Hnext |]. apply (Hgo 1%Z). by left.
Qed.

Lemma prev_next_round_trip_witness :
  well_formed (decorate three_slides) /\ slides (decorate three_slides) <> []
  /\ currentSlide (decorate three_slides) = Some (String_of_number 0)
  /\ (0 <= 0 < 3)%Z
  /\ exists b1 b2, prev_click (decorate three_slides) = Some b1 /\ next_click b1 = Some b2
                   /\ active_slides b2 = [0].
Proof.
  assert (Hwf : well_formed (decorate three_slides)).
  { repeat constructor. by exists "https://www.youtube.com/watch?v=XYZ12345678", false. }
  split; [exact Hwf |]. split; [done |]. split; [reflexivity |]. split; [lia |].
  destruct (prev_next_round_trip (decorate three_slides) 0 Hwf) as [(b1 & b2 & H1 & H2 & H3 & _) _];
    [done | reflexivity | vm_compute; split; [discriminate | reflexivity] |].
  exists b1, b2. split; [exact H1 |]. split; [exact H2 | exact H3].
Defined.

(** X10: when [shows_image] holds for every row -- each holds an image, or
    its first link with [youtube.com] or [youtu.be] in its [href] attribute
    has an [href] in which the pattern finds an id -- then after every run
    of transitions the active slide, the active indicator and the active
    thumbnail are one and the same index. *)
Theorem complete_markers_agree (rows : list Row) (ts : list Z) (t : Z) :
  1 < length rows -> forallb shows_image rows = true ->
  exists b' k, goToSlides (decorate rows) (ts ++ [t]) = Some b'
               /\ k = Z.to_nat (normalize (Z.of_nat (length rows)) t)
               /\ active_slides b' = [k]
               /\ active_indicator_targets b' = [k]
               /\ active_thumbnail_targets b' = [k].
Proof.
  intros Hlen Hall. rewrite goToSlides_snoc.
  assert (Hne : rows <> []) by (intros ->; cbn in Hlen; lia).
  destruct (goToSlides_invariant aligned (decorate rows) ts) as (b & -> & Hal & Hwf & Hl).
  - intros k b Hb _ Hk. by apply settled_markers_agree.
  - by apply aligned_decorate.
  - apply well_formed_decorate.
  - by apply slides_decorate_nonempty.
  - rewrite length_slides_decorate in Hl.
    assert (Hb : slides b <> []) by (intros E; rewrite E in Hl; cbn in Hl; lia).
    rewrite scrollToSlide_settled by done. rewrite Hl. eexists _, _.
    split; [done |]. split; [done |].
    destruct (settled_markers_agree (Z.to_nat (normalize (Z.of_nat (length rows)) t)) b Hal)
      as (H1 & H2 & H3 & _); [| done].
    rewrite <- Hl. by apply normalized_in_range.
Qed.

Lemma complete_markers_agree_witness :
  1 < length three_slides /\ forallb shows_image three_slides = true
  /\ exists b' k, goToSlides (decorate three_slides) ([-1] ++ [4])%Z = Some b'
                  /\ k = 0
                  /\ active_slides b' = [k]
                  /\ active_indicator_targets b' = [k]
                  /\ active_thumbnail_targets b' = [k].
Proof.
  split; [vm_compute; lia |]. split; [reflexivity |].
  apply (complete_markers_agree three_slides [-1]%Z 4%Z); [vm_compute; lia | reflexivity].
Defined.

Section InitialFacts.

Implicit Types (rows : list Row) (row : Row) (i : nat).

Lemma decorate_slide_is_active i row :
  is_active (s_classes (fst (decorate_slide i row))) = (i =? 0).
Proof.
  unfold decorate_slide, is_active.
  destruct (row_link row) as [[j href]|].
  - destruct (createYouTubeEmbed href false); cbn [fst s_classes];
      rewrite ?contains_add_other by done; by destruct (i =? 0).
  - destruct (row_img row) as [[? ?]|]; cbn [fst s_classes]; by destruct (i =? 0).
Qed.

Lemma decorate_slide_video_class i row : video_class_matches (fst (decorate_slide i row)).
Proof.
  unfold decorate_slide, video_class_matches.
  destruct (row_link row) as [[j href]|].
  - destruct (createYouTubeEmbed href false); cbn [fst s_classes slide_iframe s_child].
    + rewrite contains_add. symmetry. apply bool_decide_eq_true. by eexists.
    + destruct (i =? 0); symmetry; apply bool_decide_eq_false; by intros [? ?].
  - destruct (row_img row) as [[? ?]|]; cbn [fst s_classes slide_iframe s_child];
      destruct (i =? 0); symmetry; apply bool_decide_eq_false; by intros [? ?].
Qed.

End InitialFacts.

(** X11: decoration of at least one row leaves exactly the first slide
    active, one slide per row; with more than one row the stored index reads
    back as 0, so that the observer's entry for the first slide changes
    nothing. *)
Theorem decorate_initial_state (rows : list Row) :
  rows <> [] ->
  active_slides (decorate rows) = [0]
  /\ length (slides (decorate rows)) = length rows
  /\ (1 < length rows ->
      currentSlide (decorate rows) ≫= parseInt = Some 0%Z
      /\ observe_entry (decorate rows) 0 = Some (decorate rows)).
Proof.
  intros Hne. split; [| split; [apply length_slides_decorate |]].
  - unfold active_slides. rewrite slides_decorate.
    apply (positions_single _ _ 0 0).
    + rewrite length_fmap, length_imap. destruct rows; [done | cbn; lia].
    + intros i x. rewrite list_lookup_fmap, list_lookup_imap.
      destruct (rows !! i) as [row|]; [| done]. intros [= <-].
      apply decorate_slide_is_active.
  - intros Hlen. apply Nat.ltb_lt in Hlen. unfold observe_entry, decorate. rewrite Hlen.
    cbn [currentSlide mbind option_bind]. rewrite parseInt_String_of_number.
    split; [done |]. by case_decide.
Qed.

Lemma decorate_initial_state_witness :
  three_slides <> [] /\ active_slides (decorate three_slides) = [0].
Proof. split; [done |]. apply (decorate_initial_state three_slides). done. Defined.

(** X12: in every state reached from decoration by transitions, a slide
    carries the [video-slide] class exactly when it holds an iframe. *)
Theorem video_class_marks_iframes (rows : list Row) (ts : list Z) :
  rows <> [] ->
  exists b, goToSlides (decorate rows) ts = Some b
            /\ Forall video_class_matches (slides b).
Proof.
  intros Hne.
  destruct (goToSlides_invariant (fun b => Forall video_class_matches (slides b))
              (decorate rows) ts) as (b & H1 & H2 & _).
  - intros k b Hb Hwf _. unfold settled. cbn [slides]. apply Forall_lookup_2.
    intros i x. rewrite list_lookup_imap. destruct (slides b !! i) as [s|] eqn:E; [| done].
    intros [= <-]. apply video_class_settle; by eapply Forall_lookup_1.
  - rewrite slides_decorate. apply Forall_fmap, Forall_lookup_2.
    intros i x. rewrite list_lookup_imap. destruct (rows !! i) as [row|]; [| done].
    intros [= <-]. apply decorate_slide_video_class.
  - apply well_formed_decorate.
  - by apply slides_decorate_nonempty.
  - by exists b.
Qed.

Lemma video_class_marks_iframes_witness :
  three_slides <> []
  /\ exists b, goToSlides (decorate three_slides) [1; 5; -3]%Z = Some b
               /\ Forall video_class_matches (slides b).
Proof. split; [done |]. apply (video_class_marks_iframes three_slides [1; 5; -3]%Z). done. Defined.

Lemma group1_prefix (g r : string) : valid_id g = true -> group1 (g +:+ r) = Some g.
Proof.
  unfold valid_id, group1. intros [Hl Hc]%andb_true_iff. apply Nat.eqb_eq in Hl.
  assert (E : take_exact 11 (g +:+ r) = Some g).
  { rewrite <- Hl. clear. induction g as [|c g IH]; [done |].
    change (String c g +:+ r) with (String c (g +:+ r)). cbn [String.length take_exact].
    by rewrite IH. }
  by rewrite E, Hc.
Qed.

(** X13: when [createYouTubeEmbed] returns an embed, the id in its source is
    eleven characters long and holds no double quote, ampersand, question
    mark, slash or white space; the source carries the autoplay and mute
    parameters exactly when autoplay was asked for; and the preview built
    from the same URL shows the thumbnail of the same id. *)
Theorem createYouTubeEmbed_shape (url : string) (autoplay : bool) (e : Embed) :
  createYouTubeEmbed url autoplay = Some e ->
  exists id,
    String.length id = 11 /\ str_forallb id_char id = true
    /\ iframe_src e
       = "https://www.youtube.com/embed/" +:+ id +:+ "?rel=0&enablejsapi=1"
         +:+ (if autoplay then "&autoplay=1&mute=1" else EmptyString)
    /\ is_autoplay (iframe_src e) = autoplay
    /\ createYouTubePreview url
       = Some [Other "image-carousel-preview-wrapper";
               Image ("https://img.youtube.com/vi/" +:+ id +:+ "/maxresdefault.jpg")
                 "YouTube video preview";
               Other "youtube-play-button"].
Proof.
  unfold createYouTubeEmbed, createYouTubePreview.
  destruct (youtube_id url) as [id|] eqn:E; [| done]. intros [= <-].
  pose proof (youtube_id_valid _ _ E) as Hv. exists id.
  pose proof Hv as [Hl Hc]%andb_true_iff. apply Nat.eqb_eq in Hl.
  split; [done |]. split; [done |]. split; [done |]. split; [| done].
  by apply (is_autoplay_embed_source id autoplay).
Qed.

Lemma createYouTubeEmbed_shape_witness :
  createYouTubeEmbed "https://www.youtube.com/watch?v=XYZ12345678" true
  = Some (mkEmbed "https://www.youtube.com/embed/XYZ12345678?rel=0&enablejsapi=1&autoplay=1&mute=1")
  /\ exists id,
       String.length id = 11 /\ str_forallb id_char id = true
       /\ "https://www.youtube.com/embed/XYZ12345678?rel=0&enablejsapi=1&autoplay=1&mute=1"
          = "https://www.youtube.com/embed/" +:+ id +:+ "?rel=0&enablejsapi=1"
            +:+ "&autoplay=1&mute=1".
Proof.
  split; [reflexivity |].
  destruct (createYouTubeEmbed_shape "https://www.youtube.com/watch?v=XYZ12345678" true
              (mkEmbed "https://www.youtube.com/embed/XYZ12345678?rel=0&enablejsapi=1&autoplay=1&mute=1"))
    as (id & H1 & H2 & H3 & _); [reflexivity |].
  exists id. split; [exact H1 |]. split; [exact H2 | exact H3].
Defined.

(** X14: each of the four URL shapes of the pattern yields the eleven
    characters that follow the marker, whatever comes after them: a longer
    id is cut to its first eleven characters. *)
Theorem youtube_id_accepts (id rest : string) :
  valid_id id = true ->
  youtube_id ("https://youtu.be/" +:+ id +:+ rest) = Some id
  /\ youtube_id ("https://www.youtube.com/embed/" +:+ id +:+ rest) = Some id
  /\ youtube_id ("https://www.youtube.com/v/" +:+ id +:+ rest) = Some id
  /\ youtube_id ("https://www.youtube.com/watch?v=" +:+ id +:+ rest) = Some id.
Proof.
  intros Hid. pose proof (group1_prefix id rest Hid) as Hg.
  assert (Hshort : youtube_id ("youtu.be/" +:+ id +:+ rest) = Some id).
  { change ("youtu.be/" +:+ id +:+ rest) with (String "y" ("outu.be/" +:+ id +:+ rest)).
    cbn [youtube_id]. unfold match_here.
    change (String "y" ("outu.be/" +:+ id +:+ rest)) with ("youtu.be/" +:+ (id +:+ rest)).
    by rewrite lit_app, Hg. }
  assert (Hlong : forall marker,
            (lit "/embed/" (marker +:+ id +:+ rest) group1 = Some id
             \/ lit "/embed/" (marker +:+ id +:+ rest) group1 = None
                /\ (lit "/v/" (marker +:+ id +:+ rest) group1 = Some id
                    \/ lit "/v/" (marker +:+ id +:+ rest) group1 = None
                       /\ lit "/watch?v=" (marker +:+ id +:+ rest) group1 = Some id)) ->
            youtube_id ("youtube.com" +:+ marker +:+ id +:+ rest) = Some id).
  { intros marker H.
    change ("youtube.com" +:+ marker +:+ id +:+ rest)
      with (String "y" ("outube.com" +:+ marker +:+ id +:+ rest)).
    cbn [youtube_id]. unfold match_here.
    change (String "y" ("outube.com" +:+ marker +:+ id +:+ rest))
      with ("youtube.com" +:+ (marker +:+ id +:+ rest)).
    assert (E1 : forall k, lit "youtu.be/" ("youtube.com" +:+ (marker +:+ id +:+ rest)) k = None)
      by done.
    rewrite E1, lit_app. cbn [orelse].
    destruct H as [-> | [-> [-> | [-> ->]]]]; done. }
  split.
  - change ("https://youtu.be/" +:+ id +:+ rest)
      with (String "h" (String "t" (String "t" (String "p" (String "s" (String ":"
             (String "/" (String "/" ("youtu.be/" +:+ id +:+ rest))))))))).
    by rewrite !youtube_id_skip.
  - assert (Hskip : forall tail, youtube_id ("https://www." +:+ tail) = youtube_id tail).
    { intros tail.
      change ("https://www." +:+ tail)
        with (String "h" (String "t" (String "t" (String "p" (String "s" (String ":"
               (String "/" (String "/" (String "w" (String "w" (String "w"
               (String "." tail)))))))))))).
      by rewrite !youtube_id_skip. }
    split; [| split].
    + change ("https://www.youtube.com/embed/" +:+ id +:+ rest)
        with ("https://www." +:+ ("youtube.com" +:+ "/embed/" +:+ id +:+ rest)).
      rewrite Hskip. apply Hlong. left.
      change ("/embed/" +:+ id +:+ rest) with ("/embed/" +:+ (id +:+ rest)).
      by rewrite lit_app.
    + change ("https://www.youtube.com/v/" +:+ id +:+ rest)
        with ("https://www." +:+ ("youtube.com" +:+ "/v/" +:+ id +:+ rest)).
      rewrite Hskip. apply Hlong. right. split; [done |]. left.
      change ("/v/" +:+ id +:+ rest) with ("/v/" +:+ (id +:+ rest)).
      by rewrite lit_app.
    + change ("https://www.youtube.com/watch?v=" +:+ id +:+ rest)
        with ("https://www." +:+ ("youtube.com" +:+ "/watch?v=" +:+ id +:+ rest)).
      rewrite Hskip. apply Hlong. right. split; [done |]. right. split; [done |].
      change ("/watch?v=" +:+ id +:+ rest) with ("/watch?v=" +:+ (id +:+ rest)).
      by rewrite lit_app.
Qed.

Lemma youtube_id_accepts_witness :
  valid_id "dQw4w9WgXcQ" = true
  /\ youtube_id ("https://youtu.be/" +:+ "dQw4w9WgXcQ" +:+ "extra?t=3") = Some "dQw4w9WgXcQ".
Proof.
  split; [reflexivity |]. apply (youtube_id_accepts "dQw4w9WgXcQ" "extra?t=3"). reflexivity.
Defined.

(** ** The video hero: further properties *)

Section HeroRunFacts.

Import VideoHero.

Implicit Types (b : VideoHero.Block) (src : Source) (evs : list Event) (e : Event).

Lemma run_cons b e evs : run b (e :: evs) = run (step b e) evs.
Proof. done. Qed.

Lemma run_app b evs evs' : run b (evs ++ evs') = run (run b evs) evs'.
Proof. unfold run. apply fold_left_app. Qed.

Lemma embeds_decorate src : embeds (decorate src) = [].
Proof. unfold decorate. by case_match. Qed.

Lemma loadVideoEmbed_fields b l b' :
  loadVideoEmbed b l = Some b' ->
  classList b' = classList b /\ embedLoaded b' = embedLoaded b /\ link b' = link b
  /\ observing b' = observing b
  /\ (children b' = children b \/ exists c, is_embed c = true /\ children b' = c :: children b).
Proof.
  unfold loadVideoEmbed. case_decide; [intros [= <-]; do 4 (split; [done |]); by left |].
  destruct (URL_parse l) as [u|]; [| done]. intros [= <-]. cbn.
  do 4 (split; [done |]). right.
  destruct (includes l "youtube" || includes l "youtu.be");
    [| destruct (includes l "vimeo")]; (eexists; split; [| reflexivity]; reflexivity).
Qed.

(** What one step can do to the children, the classes and the flag. *)
Lemma step_fields b e :
  link (step b e) = link b
  /\ (children (step b e) = children b
      \/ exists c, is_embed c = true /\ children (step b e) = c :: children b
                   /\ observing b = true /\ classList (step b e) = classList b)
  /\ (classList (step b e) = classList b
      \/ classList (step b e) = classList_add "no-video" (classList b)
         /\ observing b = true /\ children (step b e) = children b)
  /\ (embedLoaded (step b e) = embedLoaded b
      \/ embedLoaded (step b e) = Some "true" /\ embeds b <> [])
  /\ (observing b = false -> observing (step b e) = false).
Proof.
  assert (Hsame : forall b' : VideoHero.Block, b' = b ->
            link b' = link b
            /\ (children b' = children b
                \/ exists c, is_embed c = true /\ children b' = c :: children b
                             /\ observing b = true /\ classList b' = classList b)
            /\ (classList b' = classList b
                \/ classList b' = classList_add "no-video" (classList b)
                   /\ observing b = true /\ children b' = children b)
            /\ (embedLoaded b' = embedLoaded b
                \/ embedLoaded b' = Some "true" /\ embeds b <> [])
            /\ (observing b = false -> observing b' = false)).
  { intros b' ->. split; [done |]. split; [by left |]. split; [by left |].
    split; [by left | done]. }
  destruct e as [entries reducedMotion|]; cbn [step].
  - destruct (observing b) eqn:Ho; [| by apply Hsame].
    unfold callback. destruct (existsb id entries); [| by apply Hsame].
    destruct reducedMotion; cbn [negb].
    + cbn [link children classList embedLoaded observing].
      split; [done |]. split; [by left |]. split; [by right |]. split; [by left | done].
    + destruct (loadVideoEmbed _ (link b)) as [b2|] eqn:E.
      * apply loadVideoEmbed_fields in E as (Hc & Hf & Hl & Hob & Hch).
        cbn [link children classList embedLoaded observing] in *.
        split; [done |]. split.
        { destruct Hch as [-> | (c & Hc1 & ->)]; [by left | right; by exists c]. }
        split; [by left |]. split; [by left | done].
      * cbn [link children classList embedLoaded observing].
        split; [done |]. split; [by left |]. split; [by left |]. split; [by left | done].
  - destruct (embeds b) eqn:E; [by apply Hsame |].
    cbn [link children classList embedLoaded observing].
    split; [done |]. split; [by left |]. split; [by left |]. split; [| done].
    right. done.
Qed.

Lemma step_quiet b e :
  embeds b = [] ->
  match e with
  | Intersection entries _ => existsb id entries = false
  | EmbedReady => True
  end ->
  step b e = b.
Proof.
  intros He Hq. destruct e as [entries reducedMotion|]; cbn [step].
  - unfold callback. rewrite Hq. by destruct (observing b).
  - by rewrite He.
Qed.

End HeroRunFacts.

(** X15: as long as no delivery holds an intersecting entry, nothing
    happens to the decorated block: no embed, no class, the observer still
    connected. *)
Theorem lazy_until_visible (src : VideoHero.Source) (evs : list VideoHero.Event) :
  VideoHero.first_trigger evs = None ->
  VideoHero.run (VideoHero.decorate src) evs = VideoHero.decorate src.
Proof.
  pose proof (embeds_decorate src) as He. revert He. generalize (VideoHero.decorate src).
  induction evs as [|e evs IH]; intros b He Ht; [done |].
  rewrite run_cons. rewrite step_quiet; [by apply IH; [| destruct e as [en rm|];
    cbn in Ht; [destruct (existsb id en) |]] | done |].
  destruct e as [en rm|]; [| done]. cbn in Ht. by destruct (existsb id en).
Qed.

Lemma lazy_until_visible_witness :
  let src := VideoHero.mkSource (Some "https://youtu.be/dQw4w9WgXcQ") (Some "Title") None
               ["video-hero"] in
  let evs := [VideoHero.Intersection [false] false; VideoHero.EmbedReady;
              VideoHero.Intersection [false; false] true] in
  VideoHero.first_trigger evs = None
  /\ VideoHero.run (VideoHero.decorate src) evs = VideoHero.decorate src.
Proof.
  intros src evs. split; [reflexivity |]. apply (lazy_until_visible src evs). reflexivity.
Defined.

(** X16: whatever happens, the children of the block are the embeds
    followed by what decoration put there: the overlay with the headings
    (or the message) is never removed, and an embed goes in front of it. *)
Theorem overlay_stays_last (src : VideoHero.Source) (evs : list VideoHero.Event) :
  VideoHero.children (VideoHero.run (VideoHero.decorate src) evs)
  = VideoHero.embeds (VideoHero.run (VideoHero.decorate src) evs)
    ++ VideoHero.children (VideoHero.decorate src).
Proof.
  assert (H0 : VideoHero.embeds (VideoHero.decorate src) = []) by apply embeds_decorate.
  assert (H : forall b, VideoHero.children b = VideoHero.embeds b ++ VideoHero.children (VideoHero.decorate src) ->
                        VideoHero.children (VideoHero.run b evs)
                        = VideoHero.embeds (VideoHero.run b evs)
                          ++ VideoHero.children (VideoHero.decorate src)).
  { induction evs as [|e evs IH]; intros b Hb; [done |]. rewrite run_cons. apply IH.
    destruct (step_fields b e) as (_ & Hch & _).
    unfold VideoHero.embeds in *.
    destruct Hch as [-> | (c & Hc & -> & _)]; [done |]. cbn. by rewrite Hc, Hb at 1. }
  apply H. by rewrite H0.
Qed.

(** X17: the loaded flag is [true] only while exactly one embed is in the
    block, and once [true] it stays [true] and no further embed is built. *)
Theorem loaded_flag_is_final (src : VideoHero.Source) (evs evs' : list VideoHero.Event) :
  VideoHero.embedLoaded (VideoHero.run (VideoHero.decorate src) evs) = Some "true" ->
  length (VideoHero.embeds (VideoHero.run (VideoHero.decorate src) evs)) = 1
  /\ VideoHero.embedLoaded (VideoHero.run (VideoHero.decorate src) (evs ++ evs')) = Some "true"
  /\ VideoHero.embeds (VideoHero.run (VideoHero.decorate src) (evs ++ evs'))
     = VideoHero.embeds (VideoHero.run (VideoHero.decorate src) evs).
Proof.
  intros Hflag.
  assert (Hinv : forall evs0 b,
            (VideoHero.embedLoaded b = Some "true" -> VideoHero.embeds b <> []) ->
            VideoHero.embedLoaded (VideoHero.run b evs0) = Some "true" ->
            VideoHero.embeds (VideoHero.run b evs0) <> []).
  { induction evs0 as [|e evs0 IH]; intros b Hb; [done |]. rewrite run_cons. apply IH.
    destruct (step_fields b e) as (_ & Hch & _ & Hfl & _). intros Hs.
    assert (Hb' : VideoHero.embeds b <> []).
    { destruct Hfl as [E | [_ ?]]; [| done]. apply Hb. by rewrite <- E. }
    unfold VideoHero.embeds in *. destruct Hch as [-> | (c & Hc & -> & _)]; [done |].
    cbn. by rewrite Hc. }
  set (b1 := VideoHero.run (VideoHero.decorate src) evs) in *.
  assert (Hne : VideoHero.embeds b1 <> []).
  { apply Hinv; [| done]. unfold VideoHero.decorate. by case_match. }
  assert (Hone : length (VideoHero.embeds b1) = 1).
  { pose proof (embed_at_most_once_aux src evs) as Hle. fold b1 in Hle.
    destruct (VideoHero.embeds b1); [done | cbn in *; lia]. }
  split; [done |]. rewrite run_app. fold b1.
  assert (Hobs : VideoHero.observing b1 = false).
  { pose proof (at_most_once_run _ evs (at_most_once_decorate src)) as Ha.
    fold b1 in Ha. unfold at_most_once in Ha.
    destruct (VideoHero.observing b1); [by rewrite Ha in Hne | done]. }
  clear -Hflag Hobs. revert Hflag Hobs. generalize b1. clear b1.
  induction evs' as [|e evs' IH]; intros b Hflag Hobs; [done |].
  rewrite run_cons.
  assert (Hstep : VideoHero.embedLoaded (VideoHero.step b e) = Some "true"
                  /\ VideoHero.observing (VideoHero.step b e) = false
                  /\ VideoHero.embeds (VideoHero.step b e) = VideoHero.embeds b).
  { destruct e as [en rm|]; cbn [VideoHero.step]; [by rewrite Hobs |].
    destruct (VideoHero.embeds b) eqn:E; [by rewrite E |].
    unfold VideoHero.embeds in *. cbn. by rewrite E. }
  destruct Hstep as (H1 & H2 & H3). destruct (IH _ H1 H2) as [IH1 IH2].
  split; [done |]. by rewrite IH2.
Qed.

Lemma loaded_flag_is_final_witness :
  let src := VideoHero.mkSource (Some "https://youtu.be/dQw4w9WgXcQ") None None [] in
  let evs := [VideoHero.Intersection [true] false; VideoHero.EmbedReady] in
  let evs' := [VideoHero.Intersection [true] false; VideoHero.EmbedReady] in
  VideoHero.embedLoaded (VideoHero.run (VideoHero.decorate src) evs) = Some "true"
  /\ length (VideoHero.embeds (VideoHero.run (VideoHero.decorate src) evs)) = 1
  /\ VideoHero.embedLoaded (VideoHero.run (VideoHero.decorate src) (evs ++ evs')) = Some "true".
Proof.
  intros src evs evs'. split; [reflexivity |].
  destruct (loaded_flag_is_final src evs evs') as (H1 & H2 & _); [reflexivity |].
  split; [exact H1 | exact H2].
Defined.

Section HeroExclusionFacts.

Import VideoHero.

Implicit Types (b : VideoHero.Block) (e : Event).

Lemma embed_or_class_step b e : embed_or_class b -> embed_or_class (step b e).
Proof.
  unfold embed_or_class. intros H. destruct e as [entries reducedMotion|]; cbn [step].
  - destruct (observing b) eqn:Ho; [| by rewrite Ho].
    destruct H as [He Hc]. unfold callback.
    destruct (existsb id entries); [| by rewrite Ho].
    destruct reducedMotion; cbn [negb].
    + cbn [observing]. left. unfold embeds in *. by cbn [children].
    + destruct (loadVideoEmbed _ (link b)) as [b2|] eqn:E.
      * apply loadVideoEmbed_fields in E as (Hcl & _ & _ & Hob & _).
        cbn [observing classList] in *. rewrite Hob. right. by rewrite Hcl.
      * cbn [observing]. left. unfold embeds in *. by cbn [children].
  - assert (E : observing (step b EmbedReady) = observing b
                /\ embeds (step b EmbedReady) = embeds b
                /\ classList (step b EmbedReady) = classList b)
      by (cbn [step]; destruct (embeds b) eqn:E0; [by rewrite E0 |];
          split; [done |]; split; [| done]; by rewrite <- E0).
    cbn [step] in E. destruct E as (-> & -> & ->). exact H.
Qed.

Lemma embed_or_class_run b evs : embed_or_class b -> embed_or_class (run b evs).
Proof.
  revert b. induction evs as [|e evs IH]; intros b H; [done |].
  rewrite run_cons. by apply IH, embed_or_class_step.
Qed.

End HeroExclusionFacts.

(** X18: a block that does not carry the [no-video] class to begin with
    never ends up with both an embed and that class. *)
Theorem embed_excludes_no_video (src : VideoHero.Source) (evs : list VideoHero.Event) :
  classList_contains (VideoHero.classes src) "no-video" = false ->
  VideoHero.embeds (VideoHero.run (VideoHero.decorate src) evs) = []
  \/ classList_contains (VideoHero.classList (VideoHero.run (VideoHero.decorate src) evs))
       "no-video" = false.
Proof.
  intros Hcls.
  assert (H0 : embed_or_class (VideoHero.decorate src)).
  { unfold embed_or_class, VideoHero.decorate.
    destruct (negb (VideoHero.truthy (default EmptyString (VideoHero.anchor src))));
      cbn [VideoHero.observing VideoHero.classList]; [by left | by split]. }
  pose proof (embed_or_class_run _ evs H0) as H. unfold embed_or_class in H.
  destruct (VideoHero.observing _); [left; apply H | done].
Qed.

Lemma embed_excludes_no_video_witness :
  let src := VideoHero.mkSource (Some "https://youtu.be/dQw4w9WgXcQ") None None ["video-hero"] in
  let evs := [VideoHero.Intersection [true] false; VideoHero.Intersection [true] true] in
  classList_contains (VideoHero.classes src) "no-video" = false
  /\ (VideoHero.embeds (VideoHero.run (VideoHero.decorate src) evs) = []
      \/ classList_contains (VideoHero.classList (VideoHero.run (VideoHero.decorate src) evs))
           "no-video" = false).
Proof.
  intros src evs. split; [reflexivity |]. apply (embed_excludes_no_video src evs). reflexivity.
Defined.

Section HeroTriggerFacts.

Import VideoHero.

Implicit Types (b : VideoHero.Block) (src : Source) (evs : list Event).





End HeroTriggerFacts.



Section ExtensionFacts.

Implicit Types (a r s : string) (c : ascii) (p : ascii -> bool).

Lemma cons_head_app c (l l' : list string) :
  l <> [] -> cons_head c (l ++ l') = cons_head c l ++ l'.
Proof. by destruct l. Qed.

Lemma split_app_sep_any p a c r :
  p c = true -> exists pre, pre <> [] /\ split p (a +:+ String c r) = pre ++ split p r.
Proof.
  intros Hc. induction a as [|x a (pre & Hne & IH)].
  - exists [EmptyString]. split; [done |]. cbn. by rewrite Hc.
  - change (String x a +:+ String c r) with (String x (a +:+ String c r)).
    cbn [split]. rewrite IH. destruct (p x).
    + by exists (EmptyString :: pre).
    + exists (cons_head x pre). split; [by destruct pre |]. by apply cons_head_app.
Qed.

Lemma last_app_nonempty {A} (l l' : list A) : l' <> [] -> last (l ++ l') = last l'.
Proof.
  intros Hne. induction l as [|x l IH]; [done |].
  cbn [app]. rewrite last_cons_nonempty; [done |]. by destruct l, l'.
Qed.

End ExtensionFacts.

(** X20: the type of the video source is [video/] followed by whatever
    comes after the last dot of the link, query string and all; a link
    without a dot gives [video/] followed by the whole link. *)
Theorem video_type_from_extension (base ext : string) :
  str_forallb (fun c => negb (one_of "." c)) ext = true ->
  VideoHero.getVideoElement (base +:+ "." +:+ ext)
  = VideoHero.Background (VideoHero.VideoEl (base +:+ "." +:+ ext) ("video/" +:+ ext))
  /\ VideoHero.getVideoElement ext
     = VideoHero.Background (VideoHero.VideoEl ext ("video/" +:+ ext)).
Proof.
  intros Hext. unfold VideoHero.getVideoElement. split.
  - change (base +:+ "." +:+ ext) with (base +:+ String "." ext).
    destruct (split_app_sep_any (one_of ".") base "." ext eq_refl) as (pre & _ & ->).
    rewrite last_app_nonempty by apply split_nonempty.
    by rewrite split_no_sep.
  - by rewrite split_no_sep.
Qed.

Lemma video_type_from_extension_witness :
  str_forallb (fun c => negb (one_of "." c)) "webm?v=2" = true
  /\ VideoHero.getVideoElement ("https://cdn.example.com/a.b/clip" +:+ "." +:+ "webm?v=2")
     = VideoHero.Background
         (VideoHero.VideoEl "https://cdn.example.com/a.b/clip.webm?v=2" "video/webm?v=2").
Proof.
  split; [reflexivity |].
  apply (video_type_from_extension "https://cdn.example.com/a.b/clip" "webm?v=2"). reflexivity.
Defined.

(** ** Parsing plain links *)

Section PlainUrlFacts.

Implicit Types (s a r host seg q : string) (c : ascii) (p stop : ascii -> bool).

Lemma trim_end_none p s :
  str_forallb (fun c => negb (p c)) s = true -> trim_end p s = s.
Proof.
  induction s as [|c s IH]; [done |]. cbn [str_forallb trim_end].
  intros [Hc Hs]%andb_true_iff. apply negb_true_iff in Hc. rewrite (IH Hs), Hc.
  by destruct s.
Qed.

Lemma take_until_all stop s :
  str_forallb (fun c => negb (stop c)) s = true -> take_until stop s = (s, EmptyString).
Proof.
  induction s as [|c s IH]; [done |]. cbn [str_forallb take_until].
  intros [Hc Hs]%andb_true_iff. apply negb_true_iff in Hc. by rewrite Hc, (IH Hs).
Qed.

Lemma take_until_app stop a c r :
  str_forallb (fun x => negb (stop x)) a = true -> stop c = true ->
  take_until stop (a +:+ String c r) = (a, String c r).
Proof.
  intros Ha Hc. induction a as [|x a IH].
  - cbn. by rewrite Hc.
  - change (String x a +:+ String c r) with (String x (a +:+ String c r)).
    cbn [str_forallb take_until] in *. apply andb_true_iff in Ha as [Hx Ha].
    apply negb_true_iff in Hx. by rewrite Hx, (IH Ha).
Qed.

Lemma plain_char_facts c :
  plain_char c = true ->
  is_tab_or_newline c = false /\ is_c0_or_space c = false
  /\ one_of "?#" c = false /\ one_of "#" c = false /\ is_path_sep c = false
  /\ path_set c = false /\ special_query_set c = false
  /\ Ascii.eqb (to_lower c) "." = false /\ Ascii.eqb (to_lower c) "%" = false
  /\ one_of "&" c = false /\ Ascii.eqb c "+" = false /\ Ascii.eqb c "%" = false
  /\ is_slash c = false.
Proof. destruct c as [[] [] [] [] [] [] [] []]; try discriminate; intros _; by vm_compute. Qed.

Lemma host_char_facts c :
  host_char c = true ->
  is_tab_or_newline c = false /\ is_c0_or_space c = false
  /\ one_of "/\?#" c = false /\ is_path_sep c = false.
Proof. destruct c as [[] [] [] [] [] [] [] []]; try discriminate; intros _; by vm_compute. Qed.

Lemma youtube_alphabet_plain c : youtube_alphabet c = true -> plain_char c = true.
Proof. by_cases_on_char c. Qed.

Lemma youtube_alphabet_unreserved c : youtube_alphabet c = true -> uri_unreserved c = true.
Proof. by_cases_on_char c. Qed.

Lemma is_digit_plain c : is_digit c = true -> plain_char c = true.
Proof. by_cases_on_char c. Qed.

Lemma is_digit_not_y c : is_digit c = true -> negb (Ascii.eqb "y" c) = true.
Proof. by_cases_on_char c. Qed.

Lemma plain_forall (f : ascii -> bool) s :
  (forall c, plain_char c = true -> f c = false) ->
  str_forallb plain_char s = true -> str_forallb (fun c => negb (f c)) s = true.
Proof.
  intros H. apply str_forallb_impl. intros c Hc. by rewrite (H c Hc).
Qed.

Lemma plain_not_dot seg :
  seg <> EmptyString -> str_forallb plain_char seg = true ->
  single_dot seg = false /\ double_dot seg = false.
Proof.
  destruct seg as [|c s]; [done |]. intros _. cbn [str_forallb].
  intros [Hc _]%andb_true_iff.
  destruct (plain_char_facts c Hc) as (_ & _ & _ & _ & _ & _ & _ & Hdot & Hpct & _).
  unfold single_dot, double_dot, str_in. cbn [lower existsb String.eqb].
  by rewrite Hdot, Hpct.
Qed.

Lemma path_segments_plain seg :
  seg <> EmptyString -> str_forallb plain_char seg = true ->
  path_segments ("/" +:+ seg) = [seg].
Proof.
  intros Hne Hseg. unfold path_segments.
  change (match "/" +:+ seg with
          | String c r => if is_path_sep c then r else "/" +:+ seg
          | EmptyString => "/" +:+ seg
          end) with seg.
  rewrite split_no_sep by (apply plain_forall; [intros c Hc; apply plain_char_facts, Hc | done]).
  cbn [path_state]. destruct (plain_not_dot seg Hne Hseg) as [-> ->].
  rewrite pct_encode_none
    by (apply plain_forall; [intros c Hc; apply plain_char_facts, Hc | done]).
  done.
Qed.

(** A link made of a plain host, one plain path segment and, at will, a
    plain query parses into just these parts. *)
Lemma URL_parse_plain host seg q :
  host <> EmptyString -> plain_host host = true ->
  seg <> EmptyString -> str_forallb plain_char seg = true ->
  str_forallb plain_char q = true ->
  URL_parse ("https://" +:+ host +:+ "/" +:+ seg
             +:+ (match q with EmptyString => EmptyString | _ => "?" +:+ q end))
  = Some (mkURL "https:" (lower host) ("/" +:+ seg)
            (match q with EmptyString => EmptyString | _ => "?" +:+ q end) EmptyString).
Proof.
  intros Hhost Hplain Hseg Hs Hq.
  assert (Hh : str_forallb host_char host = true).
  { unfold plain_host in Hplain. by apply andb_true_iff in Hplain as [[? _]%andb_true_iff _]. }
  set (tail := match q with EmptyString => EmptyString | _ => "?" +:+ q end).
  assert (Htail : forall f : ascii -> bool,
            f "?"%char = true -> (forall c, plain_char c = true -> f c = true) ->
            str_forallb f tail = true).
  { intros f H1 H2. unfold tail. destruct q as [|c q]; [done |].
    change (str_forallb f ("?" +:+ String c q))
      with (f "?"%char && str_forallb f (String c q)).
    rewrite H1. eapply str_forallb_impl; [apply H2 | done]. }
  assert (Hall : forall f : ascii -> bool,
            str_forallb f "https://" = true -> f "/"%char = true -> f "?"%char = true ->
            (forall c, host_char c = true -> f c = true) ->
            (forall c, plain_char c = true -> f c = true) ->
            str_forallb f ("https://" +:+ host +:+ "/" +:+ seg +:+ tail) = true).
  { intros f H1 H2 H3 H4 H5. rewrite !str_forallb_app, H1, (Htail f H3 H5).
    rewrite (str_forallb_impl _ f host H4 Hh), (str_forallb_impl _ f seg H5 Hs).
    cbn [str_forallb]. by rewrite H2. }
  unfold URL_parse, url_clean.
  change (trim_start is_c0_or_space ("https://" +:+ ?x)) with ("https://" +:+ x).
  rewrite trim_end_none.
  2:{ apply Hall; try done; intros c Hc.
      - by destruct (host_char_facts c Hc) as (_ & -> & _).
      - by destruct (plain_char_facts c Hc) as (_ & -> & _). }
  rewrite remove_chars_none.
  2:{ apply Hall; try done; intros c Hc.
      - by destruct (host_char_facts c Hc) as (-> & _).
      - by destruct (plain_char_facts c Hc) as (-> & _). }
  change (take_until (fun c => negb (is_alnum c || one_of "+-." c)) ("https://" +:+ ?x))
    with ("https", String ":" ("//" +:+ x)).
  cbv beta iota.
  change (is_alpha "h" && str_in (lower "https") ["http"; "https"]) with true.
  cbv beta iota.
  destruct host as [|h0 host']; [done |].
  assert (Hh0 : is_path_sep h0 = false).
  { cbn [str_forallb] in Hh. apply andb_true_iff in Hh as [Hh0 _].
    by destruct (host_char_facts h0 Hh0) as (_ & _ & _ & ->). }
  change (trim_start is_path_sep ("//" +:+ String h0 host' +:+ ?x))
    with (if is_path_sep h0 then trim_start is_path_sep (host' +:+ x)
          else String h0 host' +:+ x).
  rewrite Hh0.
  change ("/" +:+ seg +:+ tail) with (String "/" (seg +:+ tail)).
  rewrite (take_until_app (one_of "/\?#") (String h0 host') "/" (seg +:+ tail));
    [| eapply str_forallb_impl; [| exact Hh];
       intros c Hc; by destruct (host_char_facts c Hc) as (_ & _ & -> & _) | done].
  cbv beta iota. rewrite Hplain.
  assert (Hpqf : path_query_fragment (String "/" (seg +:+ tail))
                 = ("/" +:+ seg, q, EmptyString)).
  { unfold path_query_fragment, tail. destruct q as [|c q'].
    - rewrite append_nil_r.
      rewrite (take_until_all (one_of "?#") (String "/" seg)); [done |].
      cbn [str_forallb]. apply andb_true_iff. split; [done |].
      apply plain_forall; [intros c Hc; apply plain_char_facts, Hc | done].
    - change (String "/" (seg +:+ "?" +:+ String c q'))
        with (String "/" seg +:+ String "?" (String c q')).
      rewrite (take_until_app (one_of "?#") (String "/" seg) "?" (String c q')); [| | done].
      2:{ cbn [str_forallb]. apply andb_true_iff. split; [done |].
          apply plain_forall; [intros x Hx; apply plain_char_facts, Hx | done]. }
      rewrite (take_until_all (one_of "#") (String c q')); [done |].
      apply plain_forall; [intros x Hx; apply plain_char_facts, Hx | done]. }
  rewrite Hpqf. cbv beta iota. rewrite (path_segments_plain seg Hseg Hs).
  unfold tail. destruct q as [|c q']; [done |].
  rewrite pct_encode_none; [done |].
  apply plain_forall; [intros x Hx; apply plain_char_facts, Hx | done].
Qed.

End PlainUrlFacts.

(** ** The hero's iframe for plain links *)

Section HeroLinkFacts.

Implicit Types (id s : string) (c : ascii).

Lemma pct_decode_cons c s :
  Ascii.eqb c "%" = false -> pct_decode (String c s) = String c (pct_decode s).
Proof.
  intros Hc. destruct s as [|h [|l s'']]; [done | done |].
  change (pct_decode (String c (String h (String l s''))))
    with (match (if Ascii.eqb c "%" then hex_pair h l else None) with
          | Some b => String b (pct_decode s'')
          | None => String c (pct_decode (String h (String l s'')))
          end).
  by rewrite Hc.
Qed.

Lemma plain_char_ascii c : plain_char c = true -> (code c <=? 127) = true.
Proof. by_cases_on_char c. Qed.

Lemma utf8_decode_ascii s :
  str_forallb (fun c => code c <=? 127) s = true -> utf8_decode s = s.
Proof.
  unfold utf8_decode. induction s as [|c s IH]; [done |].
  cbn [str_forallb]. intros [Hc Hs]%andb_true_iff.
  cbn [utf8_run]. unfold utf8_step. cbn [needed utf8_idle]. unfold utf8_start.
  rewrite Hc. cbv beta iota zeta. fold utf8_idle. by rewrite (IH Hs).
Qed.

Lemma form_decode_plain s : str_forallb plain_char s = true -> form_decode s = s.
Proof.
  intros Hs. unfold form_decode.
  assert (E : pct_decode (plus_to_space s) = s).
  { induction s as [|c s IH]; [done |].
    cbn [str_forallb] in Hs. apply andb_true_iff in Hs as [Hc Hs].
    destruct (plain_char_facts c Hc)
      as (_ & _ & _ & _ & _ & _ & _ & _ & _ & _ & Hplus & Hpct & _).
    change (plus_to_space (String c s))
      with (String (if Ascii.eqb c "+" then " "%char else c) (plus_to_space s)).
    rewrite Hplus, (pct_decode_cons c _ Hpct). by rewrite (IH Hs). }
  rewrite E. apply utf8_decode_ascii.
  eapply str_forallb_impl; [apply plain_char_ascii | exact Hs].
Qed.

Lemma encodeURIComponent_alphabet id :
  str_forallb youtube_alphabet id = true -> encodeURIComponent id = id.
Proof.
  intros Hid. apply pct_encode_none. eapply str_forallb_impl; [| exact Hid].
  intros c Hc. by rewrite (youtube_alphabet_unreserved c Hc).
Qed.

Lemma truthy_nonempty s : s <> EmptyString -> VideoHero.truthy s = true.
Proof. by destruct s. Qed.

Lemma second_path id :
  str_forallb plain_char id = true ->
  VideoHero.second (split is_slash ("/" +:+ id)) = id.
Proof.
  intros Hid. change (split is_slash ("/" +:+ id)) with (EmptyString :: split is_slash id).
  rewrite split_no_sep; [done |].
  apply plain_forall; [intros c Hc; apply plain_char_facts, Hc | done].
Qed.

Lemma hero_source_with id (alt : string) :
  id <> EmptyString -> str_forallb youtube_alphabet id = true ->
  "https://www.youtube.com"
  +:+ (if VideoHero.truthy id
       then "/embed/" +:+ id +:+ "?rel=0&v=" +:+ id +:+ "&"
            +:+ VideoHero.params
                  (if VideoHero.truthy id
                   then VideoHero.assign "playlist" id
                          [("autoplay", "1"); ("mute", "1"); ("controls", "0");
                           ("disablekb", "1"); ("loop", "1"); ("playsinline", "1");
                           ("playlist", EmptyString)]
                   else [("autoplay", "1"); ("mute", "1"); ("controls", "0");
                         ("disablekb", "1"); ("loop", "1"); ("playsinline", "1");
                         ("playlist", EmptyString)])
       else alt)
  = hero_youtube_source id.
Proof.
  intros Hne Hid. rewrite (truthy_nonempty id Hne).
  change (VideoHero.assign "playlist" id
            [("autoplay", "1"); ("mute", "1"); ("controls", "0");
             ("disablekb", "1"); ("loop", "1"); ("playsinline", "1");
             ("playlist", EmptyString)])
    with [("autoplay", "1"); ("mute", "1"); ("controls", "0");
          ("disablekb", "1"); ("loop", "1"); ("playsinline", "1");
          ("playlist", id)].
  unfold VideoHero.params. cbn [fmap list_fmap fst snd].
  by rewrite (encodeURIComponent_alphabet id Hid).
Qed.

Lemma embedYoutube_short id :
  id <> EmptyString -> str_forallb youtube_alphabet id = true ->
  VideoHero.embedYoutube (mkURL "https:" "youtu.be" ("/" +:+ id) EmptyString EmptyString)
  = VideoHero.Background (VideoHero.Iframe (hero_youtube_source id)).
Proof.
  intros Hne Hid. unfold VideoHero.embedYoutube. cbn [search pathname].
  change (includes (origin (mkURL "https:" "youtu.be" ("/" +:+ id) EmptyString EmptyString))
            "youtu.be") with true.
  cbv iota. rewrite second_path
    by (eapply str_forallb_impl; [apply youtube_alphabet_plain | done]).
  cbv zeta. by rewrite hero_source_with.
Qed.

Lemma usp_watch id :
  str_forallb youtube_alphabet id = true ->
  usp_get (URLSearchParams ("?v=" +:+ id)) "v" = Some id.
Proof.
  intros Hid%(str_forallb_impl _ plain_char _ youtube_alphabet_plain).
  unfold URLSearchParams.
  change (match "?v=" +:+ id with String "?" r => r | _ => "?v=" +:+ id end)
    with ("v=" +:+ id).
  rewrite split_no_sep.
  2:{ change ("v=" +:+ id) with (String "v" (String "=" id)). cbn [str_forallb].
      apply plain_forall; [intros c Hc; apply plain_char_facts, Hc | done]. }
  change ("v=" +:+ id) with (String "v" (String "=" id)).
  cbn [omap list_omap]. 
  change (take_until (one_of "=") (String "v" (String "=" id)))
    with ("v", String "=" id).
  cbv beta iota. rewrite (form_decode_plain id Hid). done.
Qed.

Lemma embedYoutube_watch id :
  id <> EmptyString -> str_forallb youtube_alphabet id = true ->
  VideoHero.embedYoutube
    (mkURL "https:" "www.youtube.com" "/watch" ("?v=" +:+ id) EmptyString)
  = VideoHero.Background (VideoHero.Iframe (hero_youtube_source id)).
Proof.
  intros Hne Hid. unfold VideoHero.embedYoutube. cbn [search pathname].
  rewrite (usp_watch id Hid).
  change (includes (origin (mkURL "https:" "www.youtube.com" "/watch" ("?v=" +:+ id)
                              EmptyString)) "youtu.be") with false.
  cbv iota. rewrite (truthy_nonempty id Hne), (encodeURIComponent_alphabet id Hid).
  cbv zeta. rewrite <- (hero_source_with id "/watch" Hne Hid).
  by rewrite (truthy_nonempty id Hne).
Qed.

Lemma embedVimeo_plain id :
  str_forallb is_digit id = true ->
  VideoHero.embedVimeo (mkURL "https:" "vimeo.com" ("/" +:+ id) EmptyString EmptyString)
  = VideoHero.Background (VideoHero.Iframe (hero_vimeo_source id)).
Proof.
  intros Hid. unfold VideoHero.embedVimeo. cbn [pathname].
  by rewrite second_path by (eapply str_forallb_impl; [apply is_digit_plain | done]).
Qed.

End HeroLinkFacts.

(** X21: a short link [https://youtu.be/ID] and a watch link
    [https://www.youtube.com/watch?v=ID] give the same background iframe: the
    embed page of [ID], muted, autoplaying, without controls, and looping
    through a playlist that holds [ID] itself. *)
Theorem hero_youtube_links_loop (b : VideoHero.Block) (id link : string) :
  VideoHero.embedLoaded b <> Some "true" ->
  id <> EmptyString -> str_forallb youtube_alphabet id = true ->
  link = "https://youtu.be/" +:+ id \/ link = "https://www.youtube.com/watch?v=" +:+ id ->
  VideoHero.loadVideoEmbed b link
  = Some (VideoHero.mkBlock
            (VideoHero.Background (VideoHero.Iframe (hero_youtube_source id))
             :: VideoHero.children b)
            (VideoHero.classList b) (VideoHero.embedLoaded b) (VideoHero.observing b)
            (VideoHero.link b)).
Proof.
  intros Hflag Hne Hid Hlink. unfold VideoHero.loadVideoEmbed.
  destruct (decide (VideoHero.embedLoaded b = Some "true")) as [|_]; [done |].
  pose proof (str_forallb_impl _ plain_char _ youtube_alphabet_plain Hid) as Hplain.
  destruct Hlink as [-> | ->].
  - pose proof (URL_parse_plain "youtu.be" id EmptyString) as Hparse.
    cbv iota in Hparse. rewrite append_nil_r in Hparse.
    change ("https://" +:+ "youtu.be" +:+ "/" +:+ id) with ("https://youtu.be/" +:+ id) in Hparse.
    rewrite Hparse by done.
    change (includes ("https://youtu.be/" +:+ id) "youtu.be") with true.
    rewrite orb_true_r. cbv iota beta.
    change (lower "youtu.be") with "youtu.be".
    by rewrite (embedYoutube_short id Hne Hid).
  - pose proof (URL_parse_plain "www.youtube.com" "watch" ("v=" +:+ id)) as Hparse.
    change ("https://" +:+ "www.youtube.com" +:+ "/" +:+ "watch" +:+ _)
      with ("https://www.youtube.com/watch?v=" +:+ id) in Hparse.
    rewrite Hparse; [| done | done | done | done | exact Hplain].
    change (includes ("https://www.youtube.com/watch?v=" +:+ id) "youtube") with true.
    cbv iota beta.
    change (lower "www.youtube.com") with "www.youtube.com".
    change (match "v=" +:+ id with EmptyString => EmptyString | _ => "?" +:+ "v=" +:+ id end)
      with ("?v=" +:+ id).
    change ("/" +:+ "watch") with "/watch".
    by rewrite (embedYoutube_watch id Hne Hid).
Qed.

Lemma hero_youtube_links_loop_witness :
  VideoHero.loadVideoEmbed
    (VideoHero.decorate (VideoHero.mkSource (Some "https://www.youtube.com/watch?v=dQw4w9WgXcQ")
                           (Some "Title") None []))
    "https://www.youtube.com/watch?v=dQw4w9WgXcQ"
  = Some (VideoHero.mkBlock
            [VideoHero.Background (VideoHero.Iframe (hero_youtube_source "dQw4w9WgXcQ"));
             VideoHero.Content [("h1", "Title")]]
            [] (Some "false") true "https://www.youtube.com/watch?v=dQw4w9WgXcQ").
Proof.
  apply (hero_youtube_links_loop
           (VideoHero.decorate
              (VideoHero.mkSource (Some "https://www.youtube.com/watch?v=dQw4w9WgXcQ")
                 (Some "Title") None []))
           "dQw4w9WgXcQ" "https://www.youtube.com/watch?v=dQw4w9WgXcQ").
  - discriminate.
  - discriminate.
  - reflexivity.
  - right. reflexivity.
Defined.

(** X22: a link [https://vimeo.com/ID] with a numeric [ID] gives the Vimeo
    player of [ID] as a muted, looping, autoplaying background. *)
Theorem hero_vimeo_link (b : VideoHero.Block) (id : string) :
  VideoHero.embedLoaded b <> Some "true" ->
  id <> EmptyString -> str_forallb is_digit id = true ->
  VideoHero.loadVideoEmbed b ("https://vimeo.com/" +:+ id)
  = Some (VideoHero.mkBlock
            (VideoHero.Background (VideoHero.Iframe (hero_vimeo_source id))
             :: VideoHero.children b)
            (VideoHero.classList b) (VideoHero.embedLoaded b) (VideoHero.observing b)
            (VideoHero.link b)).
Proof.
  intros Hflag Hne Hid. unfold VideoHero.loadVideoEmbed.
  destruct (decide (VideoHero.embedLoaded b = Some "true")) as [|_]; [done |].
  pose proof (str_forallb_impl _ plain_char _ is_digit_plain Hid) as Hplain.
  pose proof (URL_parse_plain "vimeo.com" id EmptyString) as Hparse.
  cbv iota in Hparse. rewrite append_nil_r in Hparse.
  change ("https://" +:+ "vimeo.com" +:+ "/" +:+ id) with ("https://vimeo.com/" +:+ id) in Hparse.
  rewrite Hparse by done.
  assert (Hno : forall sub, includes ("https://vimeo.com/" +:+ id) (String "y" sub) = false).
  { intros sub. rewrite <- (append_nil_r ("https://vimeo.com/" +:+ id)).
    rewrite includes_skip; [done |].
    rewrite str_forallb_app. apply andb_true_iff. split; [done |].
    eapply str_forallb_impl; [apply is_digit_not_y | done]. }
  change "youtube" with (String "y" "outube"). change "youtu.be" with (String "y" "outu.be").
  rewrite !Hno.
  change (includes ("https://vimeo.com/" +:+ id) "vimeo") with true.
  cbv iota beta. change (false || false) with false. cbv iota.
  change (lower "vimeo.com") with "vimeo.com".
  by rewrite (embedVimeo_plain id Hid).
Qed.

Lemma hero_vimeo_link_witness :
  VideoHero.loadVideoEmbed
    (VideoHero.decorate (VideoHero.mkSource (Some "https://vimeo.com/76979871") None None []))
    "https://vimeo.com/76979871"
  = Some (VideoHero.mkBlock
            [VideoHero.Background (VideoHero.Iframe (hero_vimeo_source "76979871"));
             VideoHero.Content []]
            [] (Some "false") true "https://vimeo.com/76979871").
Proof.
  apply (hero_vimeo_link
           (VideoHero.decorate
              (VideoHero.mkSource (Some "https://vimeo.com/76979871") None None []))
           "76979871").
  - discriminate.
  - discriminate.
  - reflexivity.
Defined.
